(** * hitmap: the grievance dashboard of [src/App.jsx]

    A shallow embedding of the pure core of [App.jsx]: the key normalizer
    [normalizeBlockName], the severity classifier [getSeverity], the
    two-pass aggregator behind [statsByBlock], the lookup object [statsMap]
    with the derived [selected] value, and the map centre [mapCenter].

    Conventions of the embedding.
    - A JavaScript string is a [string]; each [ascii] stands for one UTF-16
      code unit below 256 (the Latin-1 range), on which [trim] and
      [toLowerCase] are written out exactly.
    - A value that is either a string or absent ([undefined] / [null]) is an
      [option string].
    - Integer counts are [Z]; coordinates are binary64 [float]s, which is
      what a JavaScript number is.
    - A [TypeError] is the result [None] of a computation in the option
      monad.
    - [String.prototype.localeCompare] depends on the host's collation and
      is a parameter ([Collator]). *)

From Stdlib Require Import List ZArith NArith String Ascii Bool Lia.
From Stdlib Require Import Permutation Sorted Floats Uint63.
From Stdlib Require Import DecimalString DecimalPos.
Import ListNotations.

Local Open Scope string_scope.
Local Open Scope list_scope.
Local Open Scope Z_scope.

(** ** The option monad: a thrown [TypeError] is [None] *)

Definition bind {A B : Type} (o : option A) (k : A -> option B) : option B :=
  match o with
  | Some a => k a
  | None => None
  end.

Notation "x <- e ;; k" := (bind e (fun x => k))
  (at level 61, e at next level, right associativity).

(** A [for ... of] / [forEach] loop whose body may throw. *)
Fixpoint foldM {S X : Type} (step : S -> X -> option S) (xs : list X) (s : S)
  : option S :=
  match xs with
  | [] => Some s
  | x :: rest => s' <- step s x ;; foldM step rest s'
  end.

(** ** Strings *)

(** [!s] is false exactly on the non-empty strings. *)
Definition truthy (s : string) : bool :=
  match s with
  | EmptyString => false
  | String _ _ => true
  end.

(** Truthiness of a value that is a string, [undefined] or [null]. *)
Definition truthy_name (name : option string) : bool :=
  match name with
  | Some s => truthy s
  | None => false
  end.

(** [name || dflt] for such a value. *)
Definition or_else (name : option string) (dflt : string) : string :=
  match name with
  | Some s => if truthy s then s else dflt
  | None => dflt
  end.

(** [ToString] of such a value, as applied to the argument of
    [localeCompare]. *)
Definition toStringName (name : option string) : string :=
  match name with
  | Some s => s
  | None => "undefined"
  end.

(** The code units below 256 that ECMAScript counts as WhiteSpace or
    LineTerminator: TAB, LF, VT, FF, CR, SP and NBSP. *)
Definition isWhiteSpace (c : ascii) : bool :=
  let n := N_of_ascii c in
  ((9 <=? n) && (n <=? 13) || (n =? 32) || (n =? 160))%N.

Fixpoint trimStart (s : string) : string :=
  match s with
  | EmptyString => EmptyString
  | String c rest => if isWhiteSpace c then trimStart rest else s
  end.

Fixpoint trimEnd (s : string) : string :=
  match s with
  | EmptyString => EmptyString
  | String c rest =>
      let rest' := trimEnd rest in
      if isWhiteSpace c && negb (truthy rest') then EmptyString
      else String c rest'
  end.

(** [String.prototype.trim] *)
Definition trim (s : string) : string := trimEnd (trimStart s).

(** Lower-casing of one code unit below 256: A-Z and the capital letters
    U+00C0..U+00DE (without the multiplication sign U+00D7) move up by 32. *)
Definition lowerCodeUnit (c : ascii) : ascii :=
  let n := N_of_ascii c in
  if ((65 <=? n) && (n <=? 90)
      || (192 <=? n) && (n <=? 222) && negb (n =? 215))%N
  then ascii_of_N (n + 32)
  else c.

(** [String.prototype.toLowerCase] *)
Fixpoint toLowerCase (s : string) : string :=
  match s with
  | EmptyString => EmptyString
  | String c rest => String (lowerCodeUnit c) (toLowerCase rest)
  end.

(** [function normalizeBlockName(name) { return (name || "").trim().toLowerCase(); }] *)
Definition normalizeBlockName (name : option string) : string :=
  toLowerCase (trim (or_else name "")).

(** ** Severity *)

Inductive Severity : Type := Low | Medium | High.

Record Thresholds : Type := { lowMax : Z; mediumMax : Z }.

Definition thresholds : Thresholds := {| lowMax := 3; mediumMax := 5 |}.

Definition getSeverity (count : Z) : Severity :=
  if count <=? lowMax thresholds then Low
  else if count <=? mediumMax thresholds then Medium
  else High.

(** The string each tier is in the source, and its colour. *)
Definition severityName (s : Severity) : string :=
  match s with Low => "low" | Medium => "medium" | High => "high" end.

Definition severityColor (s : Severity) : string :=
  match s with Low => "#22c55e" | Medium => "#f97316" | High => "#ef4444" end.

(** ** The two datasets *)

(** One element of [complaints] (from [./data]). *)
Record Complaint : Type := {
  id : Z;
  block : option string;
  grievance : string;
  lat : float;
  lng : float
}.

(** One GeoJSON feature; [properties] may be missing, and a property that
    is [null] is represented as not bound. *)
Record Feature : Type := {
  properties : option (list (string * string))
}.

(** [blocksGeoJson]: the [features] member may be missing. *)
Record FeatureCollection : Type := {
  features : option (list Feature)
}.

Definition BLOCK_NAME_PROP : string := "block_name".

Fixpoint prop_get (k : string) (props : list (string * string))
  : option string :=
  match props with
  | [] => None
  | (k', v) :: rest => if String.eqb k k' then Some v else prop_get k rest
  end.

(** [f.properties?.[BLOCK_NAME_PROP]] *)
Definition rawNameOf (f : Feature) : option string :=
  match properties f with
  | Some props => prop_get BLOCK_NAME_PROP props
  | None => None
  end.

(** ** The statistics table *)

Record RegionStats : Type := {
  key : string;
  label : option string;
  total : Z;
  complaints : list Complaint
}.

(** A JavaScript [Map] with string keys: the bindings in insertion order. *)
Definition JSMap : Type := list (string * RegionStats).

Fixpoint map_get (k : string) (m : JSMap) : option RegionStats :=
  match m with
  | [] => None
  | (k', v) :: rest => if String.eqb k k' then Some v else map_get k rest
  end.

Definition map_has (k : string) (m : JSMap) : bool :=
  match map_get k m with
  | Some _ => true
  | None => false
  end.

(** [map.set(k, v)]: a bound key keeps its place, a new key goes last. *)
Fixpoint map_set (k : string) (v : RegionStats) (m : JSMap) : JSMap :=
  match m with
  | [] => [(k, v)]
  | (k', v') :: rest =>
      if String.eqb k k' then (k, v) :: rest
      else (k', v') :: map_set k v rest
  end.

(** [Array.from(map.values())] *)
Definition map_values (m : JSMap) : list RegionStats := List.map snd m.

(** Body of the loop over [complaints] (lines 54-69).  The entry is an
    object held by the map, so the two updates of [entry] are a [map_set]
    at the entry's own key. *)
Definition pass1_step (m : JSMap) (c : Complaint) : option JSMap :=
  let k := normalizeBlockName (block c) in
  if negb (truthy k) then Some m
  else
    let m1 :=
      if negb (map_has k m)
      then map_set k {| key := k; label := block c; total := 0;
                        complaints := [] |} m
      else m in
    entry <- map_get k m1 ;;
    Some (map_set k {| key := key entry; label := label entry;
                       total := total entry + 1;
                       complaints := complaints entry ++ [c] |} m1).

(** Body of [features.forEach] (lines 73-91). *)
Definition pass2_step (m : JSMap) (f : Feature) : option JSMap :=
  let rawName := rawNameOf f in
  let k := normalizeBlockName rawName in
  if negb (truthy k) then Some m
  else if negb (map_has k m)
  then Some (map_set k {| key := k;
                          label := Some (or_else rawName "Unknown block");
                          total := 0; complaints := [] |} m)
  else
    entry <- map_get k m ;;
    if truthy_name rawName
    then Some (map_set k {| key := key entry; label := rawName;
                            total := total entry;
                            complaints := complaints entry |} m)
    else Some m.

(** [blocksGeoJson?.features || []] *)
Definition featuresOf (blocksGeoJson : option FeatureCollection)
  : list Feature :=
  match blocksGeoJson with
  | Some g => match features g with
              | Some fs => fs
              | None => []
              end
  | None => []
  end.

(** ** Sorting *)

(** [String.prototype.localeCompare] of the host. *)
Class Collator : Type := localeCompare : string -> string -> Z.

(** [Array.prototype.sort(cmp)] is a stable sort: [cmp x y <= 0] keeps [x]
    before [y].  With a comparator that may throw it is written here as the
    stable insertion sort, which inserts from the last element back; an
    engine may compare other pairs, and returns the same array whenever the
    comparator neither throws nor contradicts itself. *)
Section Sort.
Context {A : Type}.
Variable cmp : A -> A -> option Z.

Fixpoint sort_insert (x : A) (l : list A) : option (list A) :=
  match l with
  | [] => Some [x]
  | y :: rest =>
      c <- cmp x y ;;
      if c <=? 0 then Some (x :: y :: rest)
      else rest' <- sort_insert x rest ;; Some (y :: rest')
  end.

Fixpoint sort (l : list A) : option (list A) :=
  match l with
  | [] => Some []
  | x :: rest => sorted <- sort rest ;; sort_insert x sorted
  end.

(** The comparator lets [x] stand before [y]. *)
Definition before (x y : A) : Prop :=
  exists z, cmp x y = Some z /\ z <= 0.
End Sort.

Section Aggregator.
Context {collator : Collator}.

(** [(a, b) => b.total - a.total || a.label.localeCompare(b.label)]:
    reading [a.label] when it is [undefined] throws, and an [undefined]
    argument of [localeCompare] is converted to the string "undefined". *)
Definition compareStats (a b : RegionStats) : option Z :=
  let d := total b - total a in
  if negb (d =? 0) then Some d
  else
    match label a with
    | Some la => Some (localeCompare la (toStringName (label b)))
    | None => None
    end.

(** [statsByBlock] (lines 50-97), as a function of the two imported
    datasets [complaints] (here [records]) and [blocksGeoJson]. *)
Definition statsByBlock (records : list Complaint)
           (blocksGeoJson : option FeatureCollection)
  : option (list RegionStats) :=
  m1 <- foldM pass1_step records [] ;;
  m2 <- foldM pass2_step (featuresOf blocksGeoJson) m1 ;;
  sort compareStats (map_values m2).
End Aggregator.

(** ** The lookup object [statsMap] and the selection *)

(** What reading a property of [statsMap], and then of the value found,
    can produce. *)
Inductive JSValue : Type :=
| VUndefined
| VNull
| VStats (b : RegionStats)
| VString (s : string)
| VNumber (n : Z)
| VArray (cs : list Complaint)
| VBuiltin (name : string)
| VObjectPrototype.

Definition truthy_value (v : JSValue) : bool :=
  match v with
  | VUndefined | VNull => false
  | VString s => truthy s
  | VNumber n => negb (n =? 0)
  | VStats _ | VArray _ | VBuiltin _ | VObjectPrototype => true
  end.

(** The methods every plain object inherits from [Object.prototype]. *)
Definition objectPrototypeMethods : list string :=
  [ "constructor"; "hasOwnProperty"; "isPrototypeOf";
    "propertyIsEnumerable"; "toLocaleString"; "toString"; "valueOf";
    "__defineGetter__"; "__defineSetter__"; "__lookupGetter__";
    "__lookupSetter__" ].

Definition inherited (k : string) : JSValue :=
  if existsb (String.eqb k) objectPrototypeMethods then VBuiltin k
  else VUndefined.

Definition nameValue (name : option string) : JSValue :=
  match name with
  | Some s => VString s
  | None => VUndefined
  end.

(** A property of a [RegionStats] object (whose prototype is
    [Object.prototype]). *)
Definition stats_get (k : string) (b : RegionStats) : JSValue :=
  if String.eqb k "key" then VString (key b)
  else if String.eqb k "label" then nameValue (label b)
  else if String.eqb k "total" then VNumber (total b)
  else if String.eqb k "complaints" then VArray (complaints b)
  else if String.eqb k "__proto__" then VObjectPrototype
  else inherited k.

(** The object [m] that starts as [{}] and is filled by [m[b.key] = b]:
    its own properties, and its prototype ([None] is [Object.prototype];
    the assignment [m["__proto__"] = b] replaces it by [b]). *)
Record PlainObject : Type := {
  own : JSMap;
  proto : option RegionStats
}.

Definition emptyObject : PlainObject := {| own := []; proto := None |}.

(** [m[k] = b] *)
Definition obj_set (k : string) (b : RegionStats) (m : PlainObject)
  : PlainObject :=
  if String.eqb k "__proto__" then {| own := own m; proto := Some b |}
  else {| own := map_set k b (own m); proto := proto m |}.

(** [m[k]] *)
Definition obj_get (k : string) (m : PlainObject) : JSValue :=
  match map_get k (own m) with
  | Some b => VStats b
  | None =>
      match proto m with
      | Some p => if String.eqb k "__proto__" then VStats p else stats_get k p
      | None => if String.eqb k "__proto__" then VObjectPrototype
                else inherited k
      end
  end.

(** [statsMap] (lines 103-109) *)
Definition statsMap (statsByBlock : list RegionStats) : PlainObject :=
  fold_left (fun m b => obj_set (key b) b m) statsByBlock emptyObject.

(** The state cell [selectedBlockKey]: [null] or a key. *)
Definition SelectionState : Type := option string.

(** [selected] (line 111):
    [selectedBlockKey ? statsMap[selectedBlockKey] || null : null] *)
Definition selected (selectedBlockKey : SelectionState) (m : PlainObject)
  : JSValue :=
  match selectedBlockKey with
  | Some k =>
      if truthy k
      then let v := obj_get k m in if truthy_value v then v else VNull
      else VNull
  | None => VNull
  end.

(** [v.name] for a value that is not [undefined] or [null]. *)
Definition value_get (k : string) (v : JSValue) : JSValue :=
  match v with
  | VStats b => stats_get k b
  | _ => VUndefined
  end.

Record ModalProps : Type := {
  modal_block : JSValue;
  modal_total : JSValue;
  modal_complaints : JSValue
}.

(** [{selected && (<BlockDetailsModal ... />)}] (lines 257-264): the
    properties the modal is rendered with, or [None] when it is not
    rendered. *)
Definition detailsModal (sel : JSValue) : option ModalProps :=
  if truthy_value sel
  then Some {| modal_block := value_get "label" sel;
               modal_total := value_get "total" sel;
               modal_complaints := value_get "complaints" sel |}
  else None.

(** The click handler that [onEachFeature] installs on a polygon
    (lines 152-166): the state it sets. *)
Definition onFeatureClick (feature : Feature) : SelectionState :=
  let rawName := or_else (rawNameOf feature) "" in
  let k := normalizeBlockName (Some rawName) in
  Some k.

(** The [onClick] of a pill of the side bar, and [onClose] of the modal. *)
Definition onPillClick (b : RegionStats) : SelectionState := Some (key b).

(** ** The map centre *)

(** The two literals are rounded to the nearest binary64 value, as the
    source's are. *)
#[local] Set Warnings "-inexact-float".
Definition fallbackCenter : float * float := (20.65, 85.6)%float.

(** [complaints.length] as a number. *)
Definition lengthNumber {A : Type} (l : list A) : float :=
  PrimFloat.of_uint63 (Uint63.of_Z (Z.of_nat (List.length l))).

(** [mapCenter] (lines 114-125) *)
Definition mapCenter (records : list Complaint) : float * float :=
  if (List.length records =? 0)%nat then fallbackCenter
  else
    let sum :=
      fold_left (fun acc c => (fst acc + lat c, snd acc + lng c)%float)
                records (0, 0)%float in
    (fst sum / lengthNumber records, snd sum / lengthNumber records)%float.

(** ** The counters of the side bar and its pills *)

(** [totalComplaints] and [totalBlocks] (lines 99-100) *)
Definition totalComplaints (records : list Complaint) : Z :=
  Z.of_nat (List.length records).

Definition totalBlocks (stats : list RegionStats) : Z :=
  Z.of_nat (List.length stats).

(** The tier a pill of the side bar is classed with (line 199):
    [getSeverity(b.total)]. *)
Definition pillSeverity (b : RegionStats) : Severity :=
  getSeverity (total b).

(** ** The presentation of a polygon *)

(** [stat?.total || 0], [stat] being what [statsMap[key]] gave: the
    property read is a number or [undefined]. *)
Definition totalOf (stat : JSValue) : Z :=
  match value_get "total" stat with
  | VNumber n => n
  | _ => 0
  end.

(** [stat?.label || rawName || "Unknown block"]: the property read is a
    string or [undefined]. *)
Definition labelOf (stat : JSValue) (rawName : string) : string :=
  match value_get "label" stat with
  | VString s =>
      if truthy s then s else or_else (Some rawName) "Unknown block"
  | _ => or_else (Some rawName) "Unknown block"
  end.

Record PathStyle : Type := {
  color : string;
  weight : Z;
  fillColor : string;
  fillOpacity : float
}.

(** [styleFeature] (lines 128-149), with [statsMap] as an argument: the
    style, and the raw names [console.warn] is called with. *)
Definition styleFeature (m : PlainObject) (feature : Feature)
  : PathStyle * list string :=
  let rawName := or_else (rawNameOf feature) "" in
  let k := normalizeBlockName (Some rawName) in
  let stat := obj_get k m in
  let total := totalOf stat in
  let severity := getSeverity total in
  let fill := severityColor severity in
  ({| color := "#0000ff"; weight := 2; fillColor := fill;
      fillOpacity := 0.6 |},
   if negb (truthy_value stat) then [rawName] else []).

(** The three values the tooltip's template literal (line 169) puts
    together: the label, the total, and the plural ending
    [total === 1 ? "" : "s"]. *)
Record TooltipText : Type := {
  tooltip_label : string;
  tooltip_total : Z;
  tooltip_plural : string
}.

(** The tooltip that [onEachFeature] (lines 152-172) binds to a polygon. *)
Definition featureTooltip (m : PlainObject) (feature : Feature)
  : TooltipText :=
  let rawName := or_else (rawNameOf feature) "" in
  let k := normalizeBlockName (Some rawName) in
  let stat := obj_get k m in
  let total := totalOf stat in
  let label := labelOf stat rawName in
  {| tooltip_label := label; tooltip_total := total;
     tooltip_plural := if total =? 1 then "" else "s" |}.

(** ** The details modal *)

(** [hasComplaints] of [BlockDetailsModal] (line 269), for a [complaints]
    property that is an array or [undefined]:
    [complaints && complaints.length > 0]. *)
Definition hasComplaints (complaints : option (list Complaint)) : bool :=
  match complaints with
  | Some cs => (0 <? List.length cs)%nat
  | None => false
  end.

(** [Number.MAX_SAFE_INTEGER]: up to this size an integer is a number of
    its own, and [String] writes all its digits. *)
Definition MAX_SAFE_INTEGER : Z := 2 ^ 53 - 1.

(** [String(n)] for an integer of size at most [MAX_SAFE_INTEGER]: its
    decimal digits, after a minus sign when it is negative.  Beyond that
    size two integers can be one number, and from 10^21 on [String] writes
    an exponent; no property below uses it there. *)
Definition numberToString (n : Z) : string :=
  NilZero.string_of_int (Z.to_int n).

(** [padString] repeated and cut to [n] code units; [cur] is what is left
    of the copy in progress. *)
Fixpoint padding (n : nat) (cur padString : string) : string :=
  match n with
  | O => ""
  | S n' =>
      match cur with
      | String c rest => String c (padding n' rest padString)
      | EmptyString =>
          match padString with
          | String c rest => String c (padding n' rest padString)
          | EmptyString => ""
          end
      end
  end.

(** [String.prototype.padStart(targetLength, padString)] *)
Definition padStart (targetLength : nat) (padString : string) (s : string)
  : string :=
  (padding (targetLength - String.length s) padString padString ++ s)%string.

(** The text of [complaint-id] (line 308):
    [CMP-{String(c.id).padStart(3, "0")}]. *)
Definition complaintId (c : Complaint) : string :=
  ("CMP-" ++ padStart 3 "0" (numberToString (id c)))%string.

(** * Vocabulary of the properties *)

(** The sum a [reduce] from 0 computes, left to right, in binary64. *)
Definition floatSum (xs : list float) : float :=
  fold_left PrimFloat.add xs 0%float.

(** A record at the coordinate ([la], [lo]). *)
Definition recordAt (la lo : float) : Complaint :=
  {| id := 1; block := None; grievance := ""; lat := la; lng := lo |}.

(** [map.keys()], in insertion order. *)
Definition keys (m : JSMap) : list string := map fst m.

(** The sum of [total] over a list of entries. *)
Definition sumTotals (l : list RegionStats) : Z :=
  fold_right (fun e s => total e + s) 0 l.

(** The key a record is counted under. *)
Definition keyOf (c : Complaint) : string := normalizeBlockName (block c).

(** The records of a region, in input order. *)
Definition recordsOf (k : string) (records : list Complaint)
  : list Complaint :=
  filter (fun c => String.eqb (keyOf c) k) records.

(** The number of records whose key is not empty. *)
Definition keyedCount (records : list Complaint) : Z :=
  Z.of_nat (List.length (filter (fun c => truthy (keyOf c)) records)).

(** The entry bound to [k] once [records] are read: its key is [k] and is
    not empty, its label is a non-empty string, its list holds the records
    of [k] in input order, and its total is their number. *)
Definition entry_ok (records : list Complaint) (k : string)
           (e : RegionStats) : Prop :=
  key e = k /\ truthy k = true /\
  (exists l, label e = Some l /\ truthy l = true) /\
  complaints e = recordsOf k records /\
  total e = Z.of_nat (List.length (complaints e)).

(** What holds of the map at every point of the two loops, [records] being
    the records read so far: no key is bound twice, every entry is
    [entry_ok], every record with a non-empty key has its key bound, and the
    totals add up to the number of those records. *)
Record table_ok (records : list Complaint) (m : JSMap) : Prop := {
  ok_nodup : NoDup (keys m);
  ok_entry : forall k e, map_get k m = Some e -> entry_ok records k e;
  ok_cover : forall c, In c records -> truthy (keyOf c) = true ->
                       map_has (keyOf c) m = true;
  ok_sum : sumTotals (map_values m) = keyedCount records
}.

Arguments ok_nodup {records m} _.
Arguments ok_entry {records m} _ k e _.
Arguments ok_cover {records m} _ c _ _.
Arguments ok_sum {records m} _.

(** The entry both loops create for a new key. *)
Definition freshEntry (k : string) (name : option string) : RegionStats :=
  {| key := k; label := name; total := 0; complaints := [] |}.

(** [entry.total += 1; entry.complaints.push(c)] *)
Definition countRecord (c : Complaint) (entry : RegionStats) : RegionStats :=
  {| key := key entry; label := label entry; total := total entry + 1;
     complaints := complaints entry ++ [c] |}.

(** The key a feature is looked up under. *)
Definition featureKey (f : Feature) : string :=
  normalizeBlockName (rawNameOf f).

(** [entry.label = rawName] *)
Definition relabel (name : option string) (entry : RegionStats)
  : RegionStats :=
  {| key := key entry; label := name; total := total entry;
     complaints := complaints entry |}.

(** An entry whose label is a non-empty string. *)
Definition labelled (e : RegionStats) : Prop :=
  exists l, label e = Some l /\ truthy l = true.

(** Comparison by code units: a collation to run the aggregator with (a
    host collates by its locale instead). *)
Definition codeUnitCompare : Collator :=
  fun s t =>
    match String.compare s t with
    | Lt => -1
    | Eq => 0
    | Gt => 1
    end.

(** A record of the region [name]. *)
Definition recordOf (name : string) : Complaint :=
  {| id := 1; block := Some name; grievance := ""; lat := 20.0;
     lng := 85.0 |}.

(** A boundary feature named [name], and the dataset of given features. *)
Definition featureOf (name : string) : Feature :=
  {| properties := Some [(BLOCK_NAME_PROP, name)] |}.

Definition collectionOf (fs : list Feature) : option FeatureCollection :=
  Some {| features := Some fs |}.

(** The entry of region [name] with [n] records, without its record list. *)
Definition entryOf (name : string) (n : Z) : RegionStats :=
  {| key := normalizeBlockName (Some name); label := Some name; total := n;
     complaints := [] |}.

(** A string of white space only. *)
Fixpoint allWhiteSpace (s : string) : bool :=
  match s with
  | EmptyString => true
  | String c rest => isWhiteSpace c && allWhiteSpace rest
  end.

(** A string that is empty or starts with a code unit that is no white
    space, as what [trimStart] returns. *)
Definition startsBlack (s : string) : Prop :=
  match s with
  | EmptyString => True
  | String c _ => isWhiteSpace c = false
  end.

(** The order of the tiers. *)
Definition severityRank (s : Severity) : Z :=
  match s with Low => 0 | Medium => 1 | High => 2 end.

(** The first record filed under [k]. *)
Definition firstRecord (k : string) (records : list Complaint)
  : option Complaint :=
  find (fun c => String.eqb (keyOf c) k) records.

(** The last feature filed under [k]. *)
Fixpoint lastFeature (k : string) (fs : list Feature) : option Feature :=
  match fs with
  | [] => None
  | f :: rest =>
      match lastFeature k rest with
      | Some g => Some g
      | None => if String.eqb (featureKey f) k then Some f else None
      end
  end.

(** The non-empty keys of the two datasets, each once. *)
Definition inputKeys (records : list Complaint) (fs : list Feature)
  : list string :=
  nodup string_dec
        (filter truthy (map keyOf records ++ map featureKey fs)).

(** The number a string of decimal digits writes, leading zeros allowed. *)
Definition readDecimal (s : string) : option Z :=
  option_map Z.of_uint (NilEmpty.uint_of_string s).


(** * Properties *)

(** ** Strings and the normalizer *)

Lemma truthy_false_iff (s : string) : truthy s = false <-> s = "".
Proof. destruct s; simpl; split; congruence. Qed.

Lemma truthy_true_iff (s : string) : truthy s = true <-> s <> "".
Proof. destruct s; simpl; split; congruence. Qed.

Lemma or_else_empty (name : option string) :
  or_else (Some (or_else name "")) "" = or_else name "".
Proof. destruct name as [[|c s]|]; reflexivity. Qed.

Lemma normalizeBlockName_absent : normalizeBlockName None = "".
Proof. reflexivity. Qed.

Lemma normalizeBlockName_empty : normalizeBlockName (Some "") = "".
Proof. reflexivity. Qed.

(** A name with a non-empty key is itself a non-empty string. *)
Lemma normalizeBlockName_truthy (name : option string) :
  truthy (normalizeBlockName name) = true ->
  exists s, name = Some s /\ truthy s = true.
Proof.
  destruct name as [[|c s]|]; simpl; try discriminate.
  intros _. exists (String c s). split; reflexivity.
Qed.

Lemma or_else_truthy (name : option string) (s dflt : string) :
  name = Some s -> truthy s = true -> or_else name dflt = s.
Proof. intros -> H. simpl. rewrite H. reflexivity. Qed.

(** ** The severity classifier *)

(** C5: on every non-negative count the classifier answers [Low] up to 3,
    [Medium] on 4 and 5, and [High] from 6 on; the three ranges cover the
    non-negative integers and each count gets exactly one tier. *)
Theorem getSeverity_tiers (n : Z) :
  0 <= n ->
  (n <= 3 -> getSeverity n = Low) /\
  (4 <= n <= 5 -> getSeverity n = Medium) /\
  (6 <= n -> getSeverity n = High) /\
  (n <= 3 \/ 4 <= n <= 5 \/ 6 <= n) /\
  (getSeverity n = Low <-> n <= 3) /\
  (getSeverity n = Medium <-> 4 <= n <= 5) /\
  (getSeverity n = High <-> 6 <= n).
Proof.
  intros Hn. unfold getSeverity, thresholds; simpl.
  destruct (Z.leb_spec n 3); [|destruct (Z.leb_spec n 5)];
    repeat split; intros; try lia; try congruence.
Qed.

Lemma getSeverity_tiers_witness :
  0 <= 4 /\ getSeverity 3 = Low /\ getSeverity 4 = Medium /\
  getSeverity 5 = Medium /\ getSeverity 6 = High.
Proof.
  split; [lia|].
  split; [apply (getSeverity_tiers 3); lia|].
  split; [apply (getSeverity_tiers 4); lia|].
  split; [apply (getSeverity_tiers 5); lia|].
  apply (getSeverity_tiers 6); lia.
Defined.

(** ** The selection *)

Lemma onFeatureClick_key (f : Feature) :
  onFeatureClick f = Some (normalizeBlockName (rawNameOf f)).
Proof.
  unfold onFeatureClick, normalizeBlockName.
  rewrite or_else_empty. reflexivity.
Qed.

(** C10: a click on a polygon whose name is absent, or normalizes to the
    empty string, stores the empty string as selection key; under that key
    [selected] is [null] whatever the lookup object holds, as it is with no
    selection, and the modal is not rendered. *)
Theorem empty_name_click_selects_nothing (f : Feature) :
  rawNameOf f = None \/ normalizeBlockName (rawNameOf f) = "" ->
  onFeatureClick f = Some "" /\
  forall m : PlainObject,
    selected (onFeatureClick f) m = VNull /\
    selected (onFeatureClick f) m = selected None m /\
    detailsModal (selected (onFeatureClick f) m) = None.
Proof.
  intros H.
  assert (E : onFeatureClick f = Some "").
  { rewrite onFeatureClick_key. destruct H as [H|H]; rewrite H; reflexivity. }
  rewrite E. split; [reflexivity|]. intros m. repeat split.
Qed.

Lemma empty_name_click_selects_nothing_witness :
  let f := {| properties := Some [("block_name", "   ")] |} in
  onFeatureClick f = Some "" /\
  forall m : PlainObject,
    selected (onFeatureClick f) m = VNull /\
    selected (onFeatureClick f) m = selected None m /\
    detailsModal (selected (onFeatureClick f) m) = None.
Proof.
  intro f. apply (empty_name_click_selects_nothing f).
  right. reflexivity.
Defined.

(** ** The map centre *)

Lemma mapCenter_fold (records : list Complaint) (a b : float) :
  fold_left (fun acc c => (fst acc + lat c, snd acc + lng c)%float)
            records (a, b)
  = (fold_left PrimFloat.add (map lat records) a,
     fold_left PrimFloat.add (map lng records) b).
Proof.
  revert a b. induction records as [|c cs IH]; intros a b; simpl.
  - reflexivity.
  - apply IH.
Qed.

(** C8: without records the centre is the fallback coordinate; with
    records it is the mean of the latitudes paired with the mean of the
    longitudes, each a binary64 sum from 0 in input order divided by the
    number of records, and neither depending on the other coordinate;
    the records (20, 85) and (21, 86) give (20.5, 85.5). *)
Theorem mapCenter_mean :
  mapCenter [] = fallbackCenter /\
  (forall (c : Complaint) (cs : list Complaint),
      let records := c :: cs in
      mapCenter records
      = (floatSum (map lat records) / lengthNumber records,
         floatSum (map lng records) / lengthNumber records)%float) /\
  mapCenter [recordAt 20.0 85.0; recordAt 21.0 86.0] = (20.5, 85.5)%float.
Proof.
  split; [reflexivity|]. split; [|reflexivity].
  intros c cs records. unfold mapCenter.
  change (List.length records =? 0)%nat with false. cbv iota.
  rewrite mapCenter_fold. reflexivity.
Qed.

(** ** The insertion-ordered map *)

Lemma map_get_set_eq (k : string) (v : RegionStats) (m : JSMap) :
  map_get k (map_set k v m) = Some v.
Proof.
  induction m as [|[k' v'] m IH]; simpl.
  - rewrite String.eqb_refl. reflexivity.
  - destruct (String.eqb_spec k k') as [->|Hne]; simpl.
    + rewrite String.eqb_refl. reflexivity.
    + apply String.eqb_neq in Hne. rewrite Hne. exact IH.
Qed.

Lemma map_get_set_ne (k k' : string) (v : RegionStats) (m : JSMap) :
  k <> k' -> map_get k' (map_set k v m) = map_get k' m.
Proof.
  intros Hne. induction m as [|[k0 v0] m IH]; simpl.
  - destruct (String.eqb_spec k' k); [congruence|reflexivity].
  - destruct (String.eqb_spec k k0) as [->|Hk]; simpl.
    + destruct (String.eqb_spec k' k0); [congruence|reflexivity].
    + rewrite IH. reflexivity.
Qed.

Lemma map_set_set (k : string) (v w : RegionStats) (m : JSMap) :
  map_set k w (map_set k v m) = map_set k w m.
Proof.
  induction m as [|[k0 v0] m IH]; simpl.
  - rewrite String.eqb_refl. reflexivity.
  - destruct (String.eqb_spec k k0) as [->|Hk]; simpl.
    + rewrite String.eqb_refl. reflexivity.
    + apply String.eqb_neq in Hk. rewrite Hk, IH. reflexivity.
Qed.

Lemma map_has_true (k : string) (m : JSMap) :
  map_has k m = true <-> exists e, map_get k m = Some e.
Proof.
  unfold map_has. destruct (map_get k m) as [e|]; split.
  - intros _. exists e. reflexivity.
  - reflexivity.
  - discriminate.
  - intros [e He]. discriminate.
Qed.

Lemma map_has_false (k : string) (m : JSMap) :
  map_has k m = false <-> map_get k m = None.
Proof.
  unfold map_has. destruct (map_get k m); split; congruence.
Qed.

Lemma map_get_keys (k : string) (m : JSMap) :
  map_get k m = None <-> ~ In k (keys m).
Proof.
  induction m as [|[k0 v0] m IH]; simpl.
  - tauto.
  - destruct (String.eqb_spec k k0) as [->|Hk].
    + split; [discriminate|]. intros H. exfalso. apply H. left. reflexivity.
    + rewrite IH. split.
      * intros H [E|HI]; [congruence|tauto].
      * tauto.
Qed.

Lemma keys_map_set (k : string) (v : RegionStats) (m : JSMap) :
  keys (map_set k v m) = if map_has k m then keys m else keys m ++ [k].
Proof.
  unfold map_has. induction m as [|[k0 v0] m IH]; simpl.
  - reflexivity.
  - destruct (String.eqb_spec k k0) as [->|Hk]; simpl.
    + reflexivity.
    + rewrite IH. destruct (map_get k m); reflexivity.
Qed.

Lemma NoDup_keys_set (k : string) (v : RegionStats) (m : JSMap) :
  NoDup (keys m) -> NoDup (keys (map_set k v m)).
Proof.
  intros Hnd. rewrite keys_map_set.
  destruct (map_has k m) eqn:Hhas; [exact Hnd|].
  apply map_has_false, map_get_keys in Hhas.
  apply (Permutation_NoDup (Permutation_cons_append (keys m) k)).
  constructor; assumption.
Qed.

Lemma map_get_In (k : string) (e : RegionStats) (m : JSMap) :
  map_get k m = Some e -> In (k, e) m.
Proof.
  induction m as [|[k0 v0] m IH]; simpl; [discriminate|].
  destruct (String.eqb_spec k k0) as [->|Hk].
  - intros [= ->]. left. reflexivity.
  - intros H. right. apply IH, H.
Qed.

Lemma In_map_get (k : string) (e : RegionStats) (m : JSMap) :
  NoDup (keys m) -> In (k, e) m -> map_get k m = Some e.
Proof.
  induction m as [|[k0 v0] m IH]; simpl; [tauto|].
  intros Hnd [E|HI].
  - injection E as -> ->. rewrite String.eqb_refl. reflexivity.
  - inversion Hnd as [|? ? Hnot Hnd']; subst.
    destruct (String.eqb_spec k k0) as [->|Hk].
    + exfalso. apply Hnot. change k0 with (fst (k0, e)).
      apply in_map, HI.
    + apply IH; assumption.
Qed.

Lemma In_map_values (e : RegionStats) (m : JSMap) :
  In e (map_values m) -> exists k, In (k, e) m.
Proof.
  unfold map_values. rewrite in_map_iff.
  intros [[k e'] [E HI]]. simpl in E. subst e'. exists k. exact HI.
Qed.

(** ** Totals *)

Lemma sumTotals_app (l1 l2 : list RegionStats) :
  sumTotals (l1 ++ l2) = sumTotals l1 + sumTotals l2.
Proof. induction l1 as [|e l1 IH]; simpl; [reflexivity|]. rewrite IH. lia. Qed.

Lemma sumTotals_Permutation (l1 l2 : list RegionStats) :
  Permutation l1 l2 -> sumTotals l1 = sumTotals l2.
Proof. induction 1; simpl; lia. Qed.

Lemma sumTotals_set (k : string) (v : RegionStats) (m : JSMap) :
  sumTotals (map_values (map_set k v m))
  = sumTotals (map_values m) + total v
    - match map_get k m with Some e => total e | None => 0 end.
Proof.
  unfold map_values. induction m as [|[k0 v0] m IH]; simpl.
  - lia.
  - destruct (String.eqb_spec k k0) as [->|Hk]; simpl.
    + lia.
    + rewrite IH. lia.
Qed.

(** ** Pass 1: the records *)

Lemma table_ok_empty : table_ok [] [].
Proof.
  split; simpl.
  - constructor.
  - discriminate.
  - tauto.
  - reflexivity.
Qed.

Lemma recordsOf_snoc (k : string) (records : list Complaint) (c : Complaint) :
  recordsOf k (records ++ [c])
  = recordsOf k records ++ (if String.eqb (keyOf c) k then [c] else []).
Proof. unfold recordsOf. rewrite filter_app. reflexivity. Qed.

Lemma keyedCount_snoc (records : list Complaint) (c : Complaint) :
  keyedCount (records ++ [c])
  = keyedCount records + (if truthy (keyOf c) then 1 else 0).
Proof.
  unfold keyedCount. rewrite filter_app, length_app. simpl.
  destruct (truthy (keyOf c)); simpl; lia.
Qed.

(** No record read so far has a key that the map does not hold. *)
Lemma recordsOf_unbound (records : list Complaint) (m : JSMap) (k : string) :
  table_ok records m -> truthy k = true -> map_get k m = None ->
  recordsOf k records = [].
Proof.
  intros Hok Hk Hget. unfold recordsOf.
  destruct (filter _ records) as [|c rest] eqn:E; [reflexivity|].
  assert (HI : In c (filter (fun c => String.eqb (keyOf c) k) records))
    by (rewrite E; left; reflexivity).
  apply filter_In in HI. destruct HI as [HI Hc].
  apply String.eqb_eq in Hc.
  pose proof (ok_cover Hok c HI) as Hcov. rewrite Hc in Hcov.
  specialize (Hcov Hk). apply map_has_true in Hcov.
  destruct Hcov as [e He]. congruence.
Qed.

Lemma pass1_step_skip (m : JSMap) (c : Complaint) :
  truthy (keyOf c) = false -> pass1_step m c = Some m.
Proof.
  intros H. unfold pass1_step. fold (keyOf c). rewrite H. reflexivity.
Qed.

Lemma pass1_step_keyed (m : JSMap) (c : Complaint) :
  truthy (keyOf c) = true ->
  pass1_step m c
  = Some (map_set (keyOf c)
            (countRecord c match map_get (keyOf c) m with
                           | Some e => e
                           | None => freshEntry (keyOf c) (block c)
                           end) m).
Proof.
  intros H. unfold pass1_step. fold (keyOf c). rewrite H. simpl.
  unfold map_has. destruct (map_get (keyOf c) m) as [e|] eqn:E; simpl.
  - rewrite E. reflexivity.
  - rewrite map_get_set_eq. simpl. rewrite map_set_set. reflexivity.
Qed.

Lemma pass1_step_ok (records : list Complaint) (m : JSMap) (c : Complaint) :
  table_ok records m ->
  exists m', pass1_step m c = Some m' /\ table_ok (records ++ [c]) m'.
Proof.
  intros Hok. destruct (truthy (keyOf c)) eqn:Hk.
  - rewrite (pass1_step_keyed m c Hk). eexists. split; [reflexivity|].
    set (e0 := match map_get (keyOf c) m with
               | Some e => e
               | None => freshEntry (keyOf c) (block c)
               end).
    assert (He0 : entry_ok records (keyOf c) e0).
    { subst e0. destruct (map_get (keyOf c) m) as [e|] eqn:E.
      - apply (ok_entry Hok), E.
      - unfold entry_ok, freshEntry; simpl.
        rewrite (recordsOf_unbound _ _ _ Hok Hk E).
        destruct (normalizeBlockName_truthy (block c) Hk) as [s [Hs Ht]].
        repeat split; try assumption. exists s. split; assumption. }
    destruct He0 as [Hkey [_ [Hlab [Hrec Htot]]]].
    split.
    + apply NoDup_keys_set, (ok_nodup Hok).
    + intros k e Hget.
      destruct (String.eqb_spec (keyOf c) k) as [E|Hne].
      * subst k. rewrite map_get_set_eq in Hget. injection Hget as <-.
        unfold entry_ok, countRecord; simpl.
        rewrite recordsOf_snoc, String.eqb_refl, Hrec, length_app.
        simpl. repeat split; try assumption.
        rewrite Htot, Hrec. lia.
      * rewrite (map_get_set_ne _ _ _ _ Hne) in Hget.
        destruct (ok_entry Hok k e Hget) as [H1 [H2 [H3 [H4 H5]]]].
        apply String.eqb_neq in Hne.
        unfold entry_ok. rewrite recordsOf_snoc, Hne, app_nil_r.
        repeat split; assumption.
    + intros c' HI Hk'. apply map_has_true.
      destruct (String.eqb_spec (keyOf c) (keyOf c')) as [E|Hne].
      * rewrite <- E, map_get_set_eq. eexists; reflexivity.
      * rewrite (map_get_set_ne _ _ _ _ Hne). apply map_has_true.
        apply in_app_or in HI. destruct HI as [HI|[->|[]]].
        -- apply (ok_cover Hok), Hk'. exact HI.
        -- congruence.
    + rewrite sumTotals_set, keyedCount_snoc, Hk, (ok_sum Hok).
      subst e0. destruct (map_get (keyOf c) m); simpl; lia.
  - rewrite (pass1_step_skip m c Hk). exists m. split; [reflexivity|].
    split.
    + apply (ok_nodup Hok).
    + intros k e Hget.
      destruct (ok_entry Hok k e Hget) as [H1 [H2 [H3 [H4 H5]]]].
      unfold entry_ok. rewrite recordsOf_snoc.
      destruct (String.eqb_spec (keyOf c) k) as [E|Hne].
      * congruence.
      * rewrite app_nil_r. repeat split; assumption.
    + intros c' HI Hk'. apply in_app_or in HI.
      destruct HI as [HI|[->|[]]].
      * apply (ok_cover Hok); assumption.
      * congruence.
    + rewrite keyedCount_snoc, Hk, (ok_sum Hok). lia.
Qed.

Lemma pass1_ok (cs records : list Complaint) (m : JSMap) :
  table_ok records m ->
  exists m', foldM pass1_step cs m = Some m' /\ table_ok (records ++ cs) m'.
Proof.
  revert records m. induction cs as [|c cs IH]; intros records m Hok; simpl.
  - exists m. rewrite app_nil_r. split; [reflexivity|exact Hok].
  - destruct (pass1_step_ok _ _ c Hok) as [m1 [E1 Hok1]]. rewrite E1. simpl.
    destruct (IH _ _ Hok1) as [m' [E' Hok']].
    exists m'. split; [exact E'|].
    rewrite <- app_assoc in Hok'. exact Hok'.
Qed.

(** ** Pass 2: the boundary features *)

Lemma foldM_app {S X : Type} (step : S -> X -> option S)
      (xs ys : list X) (s : S) :
  foldM step (xs ++ ys) s = (s' <- foldM step xs s ;; foldM step ys s').
Proof.
  revert s. induction xs as [|x xs IH]; intros s; simpl.
  - reflexivity.
  - destruct (step s x) as [s1|]; simpl; [apply IH|reflexivity].
Qed.

Lemma pass2_step_skip (m : JSMap) (f : Feature) :
  truthy (featureKey f) = false -> pass2_step m f = Some m.
Proof.
  intros H. unfold pass2_step. fold (featureKey f). rewrite H. reflexivity.
Qed.

(** In the branch that creates an entry the raw name is a non-empty string,
    so [rawName || "Unknown block"] is the raw name. *)
Lemma pass2_step_new (m : JSMap) (f : Feature) :
  truthy (featureKey f) = true -> map_get (featureKey f) m = None ->
  exists r, rawNameOf f = Some r /\ truthy r = true /\
            or_else (rawNameOf f) "Unknown block" = r /\
            pass2_step m f
            = Some (map_set (featureKey f)
                            (freshEntry (featureKey f) (Some r)) m).
Proof.
  intros Hk Hget.
  destruct (normalizeBlockName_truthy (rawNameOf f) Hk) as [r [Hr Ht]].
  exists r. split; [exact Hr|]. split; [exact Ht|].
  split; [apply or_else_truthy; assumption|].
  unfold pass2_step. fold (featureKey f). rewrite Hk. simpl.
  unfold map_has. rewrite Hget. simpl.
  rewrite (or_else_truthy (rawNameOf f) r "Unknown block" Hr Ht).
  reflexivity.
Qed.

Lemma pass2_step_bound (m : JSMap) (f : Feature) (e : RegionStats) :
  truthy (featureKey f) = true -> map_get (featureKey f) m = Some e ->
  exists r, rawNameOf f = Some r /\ truthy r = true /\
            pass2_step m f
            = Some (map_set (featureKey f) (relabel (Some r) e) m).
Proof.
  intros Hk Hget.
  destruct (normalizeBlockName_truthy (rawNameOf f) Hk) as [r [Hr Ht]].
  exists r. split; [exact Hr|]. split; [exact Ht|].
  unfold pass2_step. fold (featureKey f). rewrite Hk. simpl.
  unfold map_has. rewrite Hget. simpl.
  rewrite Hr. simpl. rewrite Ht. reflexivity.
Qed.

Lemma table_ok_set (records : list Complaint) (m : JSMap) (k : string)
      (v : RegionStats) :
  table_ok records m -> entry_ok records k v ->
  total v = match map_get k m with Some e => total e | None => 0 end ->
  table_ok records (map_set k v m).
Proof.
  intros Hok Hv Htot. split.
  - apply NoDup_keys_set, (ok_nodup Hok).
  - intros k' e Hget. destruct (String.eqb_spec k k') as [E|Hne].
    + subst k'. rewrite map_get_set_eq in Hget. injection Hget as <-.
      exact Hv.
    + rewrite (map_get_set_ne _ _ _ _ Hne) in Hget.
      apply (ok_entry Hok), Hget.
  - intros c HI Hk. apply map_has_true.
    destruct (String.eqb_spec k (keyOf c)) as [E|Hne].
    + rewrite <- E, map_get_set_eq. eexists; reflexivity.
    + rewrite (map_get_set_ne _ _ _ _ Hne). apply map_has_true.
      apply (ok_cover Hok); assumption.
  - rewrite sumTotals_set, (ok_sum Hok), Htot.
    destruct (map_get k m); lia.
Qed.

Lemma map_has_set (k k' : string) (v : RegionStats) (m : JSMap) :
  map_has k' m = true -> map_has k' (map_set k v m) = true.
Proof.
  intros H. apply map_has_true.
  destruct (String.eqb_spec k k') as [E|Hne].
  - subst k'. rewrite map_get_set_eq. eexists; reflexivity.
  - rewrite (map_get_set_ne _ _ _ _ Hne). apply map_has_true, H.
Qed.

Lemma pass2_step_ok (records : list Complaint) (m : JSMap) (f : Feature) :
  table_ok records m ->
  exists m',
    pass2_step m f = Some m' /\ table_ok records m' /\
    (forall k, map_has k m = true -> map_has k m' = true) /\
    (truthy (featureKey f) = true -> map_has (featureKey f) m' = true) /\
    (forall k, k <> featureKey f -> map_get k m' = map_get k m).
Proof.
  intros Hok. destruct (truthy (featureKey f)) eqn:Hk.
  - destruct (map_get (featureKey f) m) as [e|] eqn:Hget.
    + destruct (pass2_step_bound m f e Hk Hget) as [r [Hr [Ht E]]].
      rewrite E. eexists. split; [reflexivity|].
      destruct (ok_entry Hok _ _ Hget) as [H1 [H2 [H3 [H4 H5]]]].
      split; [|split; [|split]].
      * apply table_ok_set; [exact Hok| |rewrite Hget; reflexivity].
        unfold entry_ok, relabel; simpl. repeat split; try assumption.
        exists r. split; [reflexivity|exact Ht].
      * intros k. apply map_has_set.
      * intros _. apply map_has_true. rewrite map_get_set_eq.
        eexists; reflexivity.
      * intros k Hne. apply map_get_set_ne. congruence.
    + destruct (pass2_step_new m f Hk Hget) as [r [Hr [Ht [_ E]]]].
      rewrite E. eexists. split; [reflexivity|].
      split; [|split; [|split]].
      * apply table_ok_set; [exact Hok| |rewrite Hget; reflexivity].
        unfold entry_ok, freshEntry; simpl.
        rewrite (recordsOf_unbound _ _ _ Hok Hk Hget).
        repeat split; try assumption.
        exists r. split; [reflexivity|exact Ht].
      * intros k. apply map_has_set.
      * intros _. apply map_has_true. rewrite map_get_set_eq.
        eexists; reflexivity.
      * intros k Hne. apply map_get_set_ne. congruence.
  - rewrite (pass2_step_skip m f Hk). exists m.
    split; [reflexivity|]. split; [exact Hok|].
    split; [tauto|]. split; [discriminate|reflexivity].
Qed.

Lemma pass2_ok (records : list Complaint) (fs : list Feature) (m : JSMap) :
  table_ok records m ->
  exists m',
    foldM pass2_step fs m = Some m' /\ table_ok records m' /\
    (forall k, map_has k m = true -> map_has k m' = true) /\
    (forall f, In f fs -> truthy (featureKey f) = true ->
               map_has (featureKey f) m' = true) /\
    (forall k, (forall f, In f fs -> featureKey f <> k) ->
               map_get k m' = map_get k m).
Proof.
  revert m. induction fs as [|f fs IH]; intros m Hok; simpl.
  - exists m. split; [reflexivity|]. split; [exact Hok|].
    split; [tauto|]. split; [tauto|reflexivity].
  - destruct (pass2_step_ok records m f Hok)
      as [m1 [E1 [Hok1 [Hmono1 [Hnew1 Hkeep1]]]]].
    rewrite E1. simpl.
    destruct (IH m1 Hok1) as [m' [E' [Hok' [Hmono' [Hnew' Hkeep']]]]].
    exists m'. split; [exact E'|]. split; [exact Hok'|].
    split; [|split].
    + intros k Hk. apply Hmono', Hmono1, Hk.
    + intros f' [->|HI] Hk.
      * apply Hmono', Hnew1, Hk.
      * apply Hnew'; assumption.
    + intros k Hk. rewrite Hkeep'.
      * apply Hkeep1. intros E. apply (Hk f); [left; reflexivity|].
        symmetry. exact E.
      * intros f' HI. apply Hk. right. exact HI.
Qed.

(** ** The sort *)

Section SortFacts.
Context {A : Type}.
Variable cmp : A -> A -> option Z.

Lemma sort_insert_Permutation (x : A) (l out : list A) :
  sort_insert cmp x l = Some out -> Permutation (x :: l) out.
Proof.
  revert out. induction l as [|y l IH]; intros out; simpl.
  - intros [= <-]. apply Permutation_refl.
  - destruct (cmp x y) as [c|]; simpl; [|discriminate].
    destruct (c <=? 0).
    + intros [= <-]. apply Permutation_refl.
    + destruct (sort_insert cmp x l) as [l'|]; simpl; [|discriminate].
      intros [= <-]. eapply perm_trans; [apply perm_swap|].
      apply perm_skip, IH. reflexivity.
Qed.

Lemma sort_Permutation (l out : list A) :
  sort cmp l = Some out -> Permutation l out.
Proof.
  revert out. induction l as [|x l IH]; intros out; simpl.
  - intros [= <-]. apply perm_nil.
  - destruct (sort cmp l) as [l'|]; simpl; [|discriminate].
    intros H. apply sort_insert_Permutation in H.
    eapply perm_trans; [apply perm_skip, IH; reflexivity|exact H].
Qed.

(** The elements on which the comparator does not throw, and on which it
    does not contradict itself. *)
Variable defined : A -> Prop.
Hypothesis cmp_defined :
  forall x y, defined x -> exists z, cmp x y = Some z.
Hypothesis cmp_flip :
  forall x y z, defined x -> defined y ->
                cmp x y = Some z -> 0 < z -> before cmp y x.

Lemma sort_insert_returns (x : A) (l : list A) :
  defined x -> exists out, sort_insert cmp x l = Some out.
Proof.
  intros Hx. induction l as [|y l [out IH]]; simpl.
  - eexists; reflexivity.
  - destruct (cmp_defined x y Hx) as [c ->]. simpl.
    destruct (c <=? 0); [eexists; reflexivity|].
    rewrite IH. simpl. eexists; reflexivity.
Qed.

Lemma sort_returns (l : list A) :
  Forall defined l -> exists out, sort cmp l = Some out.
Proof.
  induction 1 as [|x l Hx Hl [out IH]]; simpl.
  - eexists; reflexivity.
  - rewrite IH. simpl. apply sort_insert_returns, Hx.
Qed.

Lemma sort_insert_HdRel (y x : A) (l out : list A) :
  HdRel (before cmp) y l -> before cmp y x ->
  sort_insert cmp x l = Some out -> HdRel (before cmp) y out.
Proof.
  intros Hhd Hyx. destruct l as [|y' l]; simpl.
  - intros [= <-]. constructor. exact Hyx.
  - destruct (cmp x y') as [c|]; simpl; [|discriminate].
    destruct (c <=? 0).
    + intros [= <-]. constructor. exact Hyx.
    + destruct (sort_insert cmp x l) as [l'|]; simpl; [|discriminate].
      intros [= <-]. constructor. inversion Hhd; assumption.
Qed.

Lemma sort_insert_Sorted (x : A) (l out : list A) :
  defined x -> Forall defined l -> Sorted (before cmp) l ->
  sort_insert cmp x l = Some out -> Sorted (before cmp) out.
Proof.
  intros Hx Hl Hs. revert out.
  induction Hs as [|y l Hs IH Hhd]; intros out; simpl.
  - intros [= <-]. repeat constructor.
  - inversion Hl as [|? ? Hy Hl']; subst.
    destruct (cmp x y) as [c|] eqn:Hc; simpl; [|discriminate].
    destruct (Z.leb_spec c 0) as [Hle|Hgt].
    + intros [= <-]. constructor.
      * constructor; assumption.
      * constructor. exists c. split; assumption.
    + destruct (sort_insert cmp x l) as [l'|] eqn:Hins; simpl;
        [|discriminate].
      intros [= <-]. constructor.
      * apply IH; [exact Hl'|reflexivity].
      * apply (sort_insert_HdRel y x l l' Hhd); [|exact Hins].
        apply (cmp_flip x y c); assumption.
Qed.

Lemma sort_Sorted (l out : list A) :
  Forall defined l -> sort cmp l = Some out -> Sorted (before cmp) out.
Proof.
  intros Hl. revert out. induction Hl as [|x l Hx Hl IH]; intros out; simpl.
  - intros [= <-]. constructor.
  - destruct (sort cmp l) as [l'|] eqn:Hsort; simpl; [|discriminate].
    apply sort_insert_Sorted; [exact Hx| |apply IH; reflexivity].
    apply sort_Permutation in Hsort.
    apply (Permutation_Forall Hsort), Hl.
Qed.

Lemma Sorted_adjacent (pre post : list A) (a b : A) :
  Sorted (before cmp) (pre ++ a :: b :: post) -> before cmp a b.
Proof.
  induction pre as [|x pre IH]; simpl; intros Hs.
  - inversion Hs as [|? ? _ Hhd]; subst.
    inversion Hhd; assumption.
  - inversion Hs; subst. apply IH. assumption.
Qed.
End SortFacts.

(** ** The table after both passes *)

Lemma table_entry (records : list Complaint) (m : JSMap) (e : RegionStats) :
  table_ok records m -> In e (map_values m) ->
  map_get (key e) m = Some e /\ entry_ok records (key e) e.
Proof.
  intros Hok HI. apply In_map_values in HI. destruct HI as [k HI].
  apply (In_map_get _ _ _ (ok_nodup Hok)) in HI.
  pose proof (ok_entry Hok k e HI) as He.
  assert (Hk : key e = k) by apply He. rewrite Hk.
  split; [exact HI|exact He].
Qed.

Lemma table_labelled (records : list Complaint) (m : JSMap) :
  table_ok records m -> Forall labelled (map_values m).
Proof.
  intros Hok. apply Forall_forall. intros e HI.
  destruct (table_entry records m e Hok HI) as [_ [_ [_ [Hl _]]]].
  exact Hl.
Qed.

(** The entries filed under one key of the table: exactly the bound one. *)
Lemma filter_key_bound (records : list Complaint) (m : JSMap) (k : string)
      (e : RegionStats) :
  table_ok records m -> map_get k m = Some e ->
  filter (fun e' => String.eqb (key e') k) (map_values m) = [e].
Proof.
  intros Hok Hget.
  assert (Hkeys : forall k' e', In (k', e') m -> key e' = k').
  { intros k' e' HI. apply (In_map_get _ _ _ (ok_nodup Hok)) in HI.
    apply (ok_entry Hok k' e' HI). }
  pose proof (ok_nodup Hok) as Hnd. clear Hok.
  induction m as [|[k0 e0] m IH]; simpl in *; [discriminate|].
  inversion Hnd as [|? ? Hnot Hnd']; subst.
  rewrite (Hkeys k0 e0 (or_introl eq_refl)).
  destruct (String.eqb_spec k k0) as [->|Hne].
  - injection Hget as ->. rewrite String.eqb_refl. f_equal.
    apply map_get_keys in Hnot. clear IH Hnd Hnd'.
    induction m as [|[k1 e1] m IH]; simpl in *; [reflexivity|].
    rewrite (Hkeys k1 e1 (or_intror (or_introl eq_refl))).
    destruct (String.eqb_spec k0 k1) as [->|Hne1]; [discriminate|].
    destruct (String.eqb_spec k1 k0) as [E|_]; [congruence|].
    apply IH; [|exact Hnot].
    intros k' e' [HI|HI]; apply Hkeys; [left|right; right]; exact HI.
  - destruct (String.eqb_spec k0 k) as [E|_]; [congruence|].
    apply IH; [exact Hget| |exact Hnd'].
    intros k' e' HI. apply Hkeys. right. exact HI.
Qed.

Lemma filter_Permutation {A : Type} (p : A -> bool) (l out : list A) :
  Permutation l out -> Permutation (filter p l) (filter p out).
Proof.
  induction 1 as [|x l l' _ IH|x y l|l l' l'' _ IH1 _ IH2]; simpl.
  - apply perm_nil.
  - destruct (p x); [apply perm_skip|]; exact IH.
  - destruct (p x), (p y); try apply Permutation_refl. apply perm_swap.
  - eapply perm_trans; eassumption.
Qed.

Lemma filter_Permutation_singleton {A : Type} (p : A -> bool)
      (l out : list A) (x : A) :
  Permutation l out -> filter p l = [x] -> filter p out = [x].
Proof.
  intros Hperm Hf. apply Permutation_length_1_inv.
  rewrite <- Hf. apply filter_Permutation. exact Hperm.
Qed.

Lemma recordsOf_none (k : string) (records : list Complaint) :
  (forall c, In c records -> keyOf c <> k) -> recordsOf k records = [].
Proof.
  unfold recordsOf. induction records as [|c cs IH]; simpl; intros H.
  - reflexivity.
  - destruct (String.eqb_spec (keyOf c) k) as [E|_].
    + exfalso. apply (H c); [left; reflexivity|exact E].
    + apply IH. intros c' HI. apply H. right. exact HI.
Qed.

Lemma compareStats_defined {collator : Collator} (a b : RegionStats) :
  labelled a -> exists z, compareStats a b = Some z.
Proof.
  intros [l [Hl _]]. unfold compareStats. rewrite Hl.
  destruct (negb (total b - total a =? 0)); eexists; reflexivity.
Qed.

Lemma compareStats_flip {collator : Collator} :
  (forall s t, 0 < localeCompare s t -> localeCompare t s <= 0) ->
  forall a b z, labelled a -> labelled b ->
                compareStats a b = Some z -> 0 < z ->
                before compareStats b a.
Proof.
  intros Hanti a b z [la [Hla _]] [lb [Hlb _]]. unfold before, compareStats.
  rewrite Hla, Hlb. simpl.
  destruct (Z.eqb_spec (total b - total a) 0) as [E|Hne]; simpl.
  - intros [= <-] Hz.
    destruct (Z.eqb_spec (total a - total b) 0) as [_|Hne']; [|lia]. simpl.
    eexists. split; [reflexivity|]. apply Hanti, Hz.
  - intros [= <-] Hz.
    destruct (Z.eqb_spec (total a - total b) 0) as [E'|_]; [lia|]. simpl.
    eexists. split; [reflexivity|]. lia.
Qed.

Lemma compareStats_before {collator : Collator} (a b : RegionStats) :
  labelled b -> before compareStats a b ->
  total a > total b \/
  (total a = total b /\
   exists la lb, label a = Some la /\ label b = Some lb /\
                 localeCompare la lb <= 0).
Proof.
  intros [lb [Hlb _]] [z [Hz Hle]]. unfold compareStats in Hz.
  destruct (Z.eqb_spec (total b - total a) 0) as [E|Hne]; simpl in Hz.
  - right. split; [lia|]. destruct (label a) as [la|]; [|discriminate].
    injection Hz as <-. rewrite Hlb in Hle. simpl in Hle.
    exists la, lb. split; [reflexivity|]. split; [exact Hlb|exact Hle].
  - injection Hz as <-. left. lia.
Qed.

(** The aggregator returns: both loops run to their end on a map that
    satisfies [table_ok], and the sort permutes the map's values. *)
Lemma statsByBlock_returns {collator : Collator} (records : list Complaint)
      (blocksGeoJson : option FeatureCollection) :
  exists m1 m out,
    foldM pass1_step records [] = Some m1 /\ table_ok records m1 /\
    foldM pass2_step (featuresOf blocksGeoJson) m1 = Some m /\
    table_ok records m /\
    (forall f, In f (featuresOf blocksGeoJson) ->
               truthy (featureKey f) = true ->
               map_has (featureKey f) m = true) /\
    statsByBlock records blocksGeoJson = Some out /\
    sort compareStats (map_values m) = Some out /\
    Permutation (map_values m) out.
Proof.
  destruct (pass1_ok records [] [] table_ok_empty) as [m1 [E1 Hok1]].
  simpl in Hok1.
  destruct (pass2_ok records (featuresOf blocksGeoJson) m1 Hok1)
    as [m [E2 [Hok2 [_ [Hcov _]]]]].
  destruct (sort_returns compareStats labelled
              (fun x y => compareStats_defined x y)
              (map_values m) (table_labelled records m Hok2)) as [out Hs].
  exists m1, m, out. unfold statsByBlock. rewrite E1. simpl. rewrite E2. simpl.
  split; [reflexivity|]. split; [exact Hok1|]. split; [reflexivity|].
  split; [exact Hok2|]. split; [exact Hcov|]. split; [exact Hs|].
  split; [exact Hs|]. apply (sort_Permutation compareStats), Hs.
Qed.

Lemma statsByBlock_of_table {collator : Collator} (records : list Complaint)
      (blocksGeoJson : option FeatureCollection) (m1 m : JSMap) :
  foldM pass1_step records [] = Some m1 ->
  foldM pass2_step (featuresOf blocksGeoJson) m1 = Some m ->
  exists out, statsByBlock records blocksGeoJson = Some out /\
              table_ok records m /\ Permutation (map_values m) out.
Proof.
  intros E1 E2.
  destruct (statsByBlock_returns records blocksGeoJson)
    as [m1' [m' [out [E1' [_ [E2' [Hok [_ [Hs [_ Hperm]]]]]]]]]].
  rewrite E1 in E1'. injection E1' as <-.
  rewrite E2 in E2'. injection E2' as <-.
  exists out. split; [exact Hs|]. split; assumption.
Qed.

(** ** A collation to run the aggregator with *)

Lemma codeUnitCompare_flip (s t : string) :
  0 < codeUnitCompare s t -> codeUnitCompare t s <= 0.
Proof.
  unfold codeUnitCompare. rewrite (String.compare_antisym t s).
  destruct (String.compare s t); simpl; lia.
Qed.

(** ** The claims about the aggregator *)

(** C1: when pass 2 reaches a feature whose key is bound since pass 1, the
    step replaces the entry's label by the feature's non-empty raw name and
    leaves the rest of the entry as it is; and when no later feature has
    the same key, that raw name is the label of the region's entry in the
    output. *)
Theorem feature_name_overwrites_label {collator : Collator}
        (records : list Complaint) (fs1 fs2 : list Feature) (f : Feature)
        (r : string) (m1 : JSMap) :
  foldM pass1_step records [] = Some m1 ->
  rawNameOf f = Some r -> r <> "" ->
  map_has (featureKey f) m1 = true ->
  (exists m e,
      foldM pass2_step fs1 m1 = Some m /\
      map_get (featureKey f) m = Some e /\
      pass2_step m f
      = Some (map_set (featureKey f)
                      {| key := key e; label := Some r; total := total e;
                         complaints := complaints e |} m)) /\
  ((forall f', In f' fs2 -> featureKey f' <> featureKey f) ->
   exists out e,
     statsByBlock records (collectionOf (fs1 ++ f :: fs2)) = Some out /\
     filter (fun e' => String.eqb (key e') (featureKey f)) out = [e] /\
     label e = Some r /\
     complaints e = recordsOf (featureKey f) records).
Proof.
  intros E1 Hr _ Hhas.
  destruct (pass1_ok records [] [] table_ok_empty) as [m1' [E1' Hok1]].
  simpl in Hok1. rewrite E1 in E1'. injection E1' as <-.
  destruct (pass2_ok records fs1 m1 Hok1) as [m [E2 [Hok2 [Hmono _]]]].
  pose proof (Hmono _ Hhas) as Hhas2. apply map_has_true in Hhas2.
  destruct Hhas2 as [e Hget].
  assert (Hk : truthy (featureKey f) = true)
    by apply (ok_entry Hok2 _ _ Hget).
  destruct (pass2_step_bound m f e Hk Hget) as [r' [Hr' [_ Estep]]].
  rewrite Hr in Hr'. injection Hr' as <-.
  split.
  - exists m, e. split; [exact E2|]. split; [exact Hget|exact Estep].
  - intros Hlater.
    destruct (pass2_step_ok records m f Hok2) as [m' [Estep' [Hok' _]]].
    rewrite Estep in Estep'. injection Estep' as Em'.
    destruct (pass2_ok records fs2 m' Hok') as [m2 [E3 [Hok3 [_ [_ Hkeep]]]]].
    specialize (Hkeep (featureKey f) Hlater).
    rewrite <- Em', map_get_set_eq in Hkeep.
    destruct (statsByBlock_of_table records (collectionOf (fs1 ++ f :: fs2))
                                    m1 m2 E1) as [out [Hs [_ Hperm]]].
    { simpl. rewrite foldM_app, E2. simpl. rewrite Estep, Em'. exact E3. }
    exists out. eexists. split; [exact Hs|]. split; [|split].
    + apply (filter_Permutation_singleton _ _ _ _ Hperm).
      apply (filter_key_bound records m2 _ _ Hok3 Hkeep).
    + reflexivity.
    + apply (ok_entry Hok2 _ _ Hget).
Qed.

Lemma feature_name_overwrites_label_witness :
  exists out e,
    statsByBlock (collator := codeUnitCompare)
                 [recordOf "sadar"] (collectionOf [featureOf "Sadar"])
    = Some out /\
    filter (fun e' => String.eqb (key e') "sadar") out = [e] /\
    label e = Some "Sadar" /\
    complaints e = [recordOf "sadar"].
Proof.
  refine (proj2 (feature_name_overwrites_label
                   (collator := codeUnitCompare)
                   [recordOf "sadar"] [] [] (featureOf "Sadar") "Sadar"
                   [("sadar",
                     {| key := "sadar"; label := Some "sadar"; total := 1;
                        complaints := [recordOf "sadar"] |})]
                   eq_refl eq_refl _ eq_refl) _).
  - discriminate.
  - intros f' [].
Defined.

(** C2: with a [localeCompare] that never puts each of two strings after
    the other, the aggregator returns, and of any two neighbours of its
    output the first has the greater total, or the same total and a label
    that compares less than or equal to the second's; where "Alpha" does
    not compare after "Beta", the entries Zeta 1, Alpha 5, Beta 5 sort to
    Alpha 5, Beta 5, Zeta 1. *)
Theorem statsByBlock_sorted {collator : Collator} :
  (forall s t, 0 < localeCompare s t -> localeCompare t s <= 0) ->
  localeCompare "Alpha" "Beta" <= 0 ->
  (forall (records : list Complaint)
          (blocksGeoJson : option FeatureCollection),
      exists out,
        statsByBlock records blocksGeoJson = Some out /\
        forall pre a b post,
          out = pre ++ a :: b :: post ->
          total a > total b \/
          (total a = total b /\
           exists la lb, label a = Some la /\ label b = Some lb /\
                         localeCompare la lb <= 0)) /\
  sort compareStats [entryOf "Zeta" 1; entryOf "Alpha" 5; entryOf "Beta" 5]
  = Some [entryOf "Alpha" 5; entryOf "Beta" 5; entryOf "Zeta" 1].
Proof.
  intros Hanti Hab. split.
  - intros records blocksGeoJson.
    destruct (statsByBlock_returns records blocksGeoJson)
      as [m1 [m [out [_ [_ [_ [Hok [_ [Hs [Hsort Hperm]]]]]]]]]].
    exists out. split; [exact Hs|]. intros pre a b post Hout.
    pose proof (table_labelled records m Hok) as Hlab.
    assert (Hsorted : Sorted (before compareStats) out).
    { apply (sort_Sorted compareStats labelled (compareStats_flip Hanti)
                         (map_values m) out Hlab Hsort). }
    apply compareStats_before.
    + apply (Permutation_Forall Hperm) in Hlab.
      rewrite Forall_forall in Hlab. apply Hlab. rewrite Hout.
      apply in_or_app. right. right. left. reflexivity.
    + rewrite Hout in Hsorted. apply (Sorted_adjacent _ _ _ _ _ Hsorted).
  - cbn. destruct (Z.leb_spec (localeCompare "Alpha" "Beta") 0) as [_|Hgt].
    + reflexivity.
    + lia.
Qed.

Lemma statsByBlock_sorted_witness :
  sort (compareStats (collator := codeUnitCompare))
       [entryOf "Zeta" 1; entryOf "Alpha" 5; entryOf "Beta" 5]
  = Some [entryOf "Alpha" 5; entryOf "Beta" 5; entryOf "Zeta" 1].
Proof.
  refine (proj2 (statsByBlock_sorted (collator := codeUnitCompare)
                   codeUnitCompare_flip _)).
  vm_compute. discriminate.
Defined.

(** C3: the aggregator returns, the totals of its output add up to the
    number of records whose key is not empty, and a record whose name is
    absent or normalizes to the empty string is in no entry's list. *)
Theorem totals_conserved {collator : Collator} (records : list Complaint)
        (blocksGeoJson : option FeatureCollection) :
  exists out,
    statsByBlock records blocksGeoJson = Some out /\
    sumTotals out = keyedCount records /\
    forall c, keyOf c = "" ->
              forall e, In e out -> ~ In c (complaints e).
Proof.
  destruct (statsByBlock_returns records blocksGeoJson)
    as [m1 [m [out [_ [_ [_ [Hok [_ [Hs [_ Hperm]]]]]]]]]].
  exists out. split; [exact Hs|]. split.
  - rewrite <- (sumTotals_Permutation _ _ Hperm). apply (ok_sum Hok).
  - intros c Hc e He HI.
    apply (Permutation_in _ (Permutation_sym Hperm)) in He.
    destruct (table_entry records m e Hok He) as [_ [_ [Hk [_ [Hrec _]]]]].
    rewrite Hrec in HI. apply filter_In in HI. destruct HI as [_ HI].
    apply String.eqb_eq in HI. rewrite Hc in HI. rewrite <- HI in Hk.
    discriminate.
Qed.

(** C4: the key of each boundary feature with a non-empty key is the key
    of exactly one entry of the output; when no record has that key, the
    entry has total 0 and an empty record list. *)
Theorem features_covered {collator : Collator} (records : list Complaint)
        (blocksGeoJson : option FeatureCollection) (f : Feature) :
  In f (featuresOf blocksGeoJson) -> featureKey f <> "" ->
  exists out e,
    statsByBlock records blocksGeoJson = Some out /\
    filter (fun e' => String.eqb (key e') (featureKey f)) out = [e] /\
    ((forall c, In c records -> keyOf c <> featureKey f) ->
     total e = 0 /\ complaints e = []).
Proof.
  intros Hf Hk. apply truthy_true_iff in Hk.
  destruct (statsByBlock_returns records blocksGeoJson)
    as [m1 [m [out [_ [_ [_ [Hok [Hcov [Hs [_ Hperm]]]]]]]]]].
  pose proof (Hcov f Hf Hk) as Hhas. apply map_has_true in Hhas.
  destruct Hhas as [e Hget].
  exists out, e. split; [exact Hs|]. split.
  - apply (filter_Permutation_singleton _ _ _ _ Hperm).
    apply (filter_key_bound records m _ _ Hok Hget).
  - intros Hnone.
    destruct (ok_entry Hok _ _ Hget) as [_ [_ [_ [Hrec Htot]]]].
    rewrite (recordsOf_none _ _ Hnone) in Hrec.
    rewrite Hrec in Htot. simpl in Htot. split; assumption.
Qed.

Lemma features_covered_witness :
  exists out e,
    statsByBlock (collator := codeUnitCompare)
                 [recordOf "Sadar"]
                 (collectionOf [featureOf "Sadar"; featureOf "Hindol"])
    = Some out /\
    filter (fun e' => String.eqb (key e') "hindol") out = [e] /\
    ((forall c, In c [recordOf "Sadar"] -> keyOf c <> "hindol") ->
     total e = 0 /\ complaints e = []).
Proof.
  refine (features_covered (collator := codeUnitCompare)
            [recordOf "Sadar"]
            (collectionOf [featureOf "Sadar"; featureOf "Hindol"])
            (featureOf "Hindol") _ _).
  - simpl. right. left. reflexivity.
  - discriminate.
Defined.

(** C7: a boundary dataset that is absent, or has no [features] member,
    is read as the empty list of features: the aggregator returns what it
    returns for the empty list, which is the sorted table of pass 1. *)
Theorem missing_features_are_empty {collator : Collator}
        (records : list Complaint) :
  statsByBlock records None = statsByBlock records (collectionOf []) /\
  statsByBlock records (Some {| features := None |})
  = statsByBlock records (collectionOf []) /\
  exists m1 out,
    foldM pass1_step records [] = Some m1 /\
    sort compareStats (map_values m1) = Some out /\
    statsByBlock records None = Some out.
Proof.
  split; [reflexivity|]. split; [reflexivity|].
  destruct (statsByBlock_returns records None)
    as [m1 [m [out [E1 [_ [E2 [_ [_ [Hs [Hsort _]]]]]]]]]].
  simpl in E2. injection E2 as <-.
  exists m1, out. split; [exact E1|]. split; [exact Hsort|exact Hs].
Qed.

(** C9: every entry of the output has a non-empty key and a non-empty
    string as label; a record that creates an entry in pass 1 has a
    non-empty block name, which is the label it gives; a feature that
    creates an entry in pass 2 has a non-empty raw name, which is the label
    it gives, so "Unknown block" is never taken. *)
Theorem entries_named {collator : Collator} (records : list Complaint)
        (blocksGeoJson : option FeatureCollection) :
  (exists out,
      statsByBlock records blocksGeoJson = Some out /\
      forall e, In e out ->
                key e <> "" /\ exists l, label e = Some l /\ l <> "") /\
  (forall m c,
      keyOf c <> "" -> map_has (keyOf c) m = false ->
      exists s, block c = Some s /\ s <> "" /\
                pass1_step m c
                = Some (map_set (keyOf c)
                                {| key := keyOf c; label := Some s;
                                   total := 1; complaints := [c] |} m)) /\
  (forall m f,
      featureKey f <> "" -> map_has (featureKey f) m = false ->
      exists r, rawNameOf f = Some r /\ r <> "" /\
                or_else (rawNameOf f) "Unknown block" = r /\
                pass2_step m f
                = Some (map_set (featureKey f)
                                {| key := featureKey f; label := Some r;
                                   total := 0; complaints := [] |} m)).
Proof.
  split; [|split].
  - destruct (statsByBlock_returns records blocksGeoJson)
      as [m1 [m [out [_ [_ [_ [Hok [_ [Hs [_ Hperm]]]]]]]]]].
    exists out. split; [exact Hs|]. intros e He.
    apply (Permutation_in _ (Permutation_sym Hperm)) in He.
    destruct (table_entry records m e Hok He)
      as [_ [_ [Hk [[l [Hl Ht]] _]]]].
    split; [apply truthy_true_iff, Hk|].
    exists l. split; [exact Hl|apply truthy_true_iff, Ht].
  - intros m c Hk Hhas. apply truthy_true_iff in Hk.
    apply map_has_false in Hhas.
    destruct (normalizeBlockName_truthy (block c) Hk) as [s [Hs Ht]].
    exists s. split; [exact Hs|]. split; [apply truthy_true_iff, Ht|].
    rewrite (pass1_step_keyed m c Hk), Hhas, Hs. reflexivity.
  - intros m f Hk Hhas. apply truthy_true_iff in Hk.
    apply map_has_false in Hhas.
    destruct (pass2_step_new m f Hk Hhas) as [r [Hr [Ht [Hor E]]]].
    exists r. split; [exact Hr|]. split; [apply truthy_true_iff, Ht|].
    split; [exact Hor|exact E].
Qed.

(** ** The lookup object *)

Lemma statsMap_own_absent (stats : list RegionStats) (o : PlainObject)
      (k : string) :
  (forall b, In b stats -> key b <> k) ->
  map_get k (own (fold_left (fun m b => obj_set (key b) b m) stats o))
  = map_get k (own o).
Proof.
  revert o. induction stats as [|b stats IH]; intros o H; simpl.
  - reflexivity.
  - rewrite IH by (intros b' HI; apply H; right; exact HI).
    unfold obj_set. destruct (String.eqb (key b) "__proto__"); simpl.
    + reflexivity.
    + apply map_get_set_ne, H. left. reflexivity.
Qed.

Lemma statsMap_proto_absent (stats : list RegionStats) (o : PlainObject) :
  (forall b, In b stats -> key b <> "__proto__") ->
  proto (fold_left (fun m b => obj_set (key b) b m) stats o) = proto o.
Proof.
  revert o. induction stats as [|b stats IH]; intros o H; simpl.
  - reflexivity.
  - rewrite IH by (intros b' HI; apply H; right; exact HI).
    unfold obj_set.
    destruct (String.eqb_spec (key b) "__proto__") as [E|_]; simpl.
    + exfalso. apply (H b); [left; reflexivity|exact E].
    + reflexivity.
Qed.

(** A method name of [Object.prototype] that is no key of the table is
    still found on [statsMap], whatever the table holds. *)
Lemma statsMap_inherited (stats : list RegionStats) (k : string) :
  In k objectPrototypeMethods ->
  (forall b, In b stats -> key b <> k) ->
  obj_get k (statsMap stats) = VBuiltin k.
Proof.
  intros Hk Habs. unfold obj_get, statsMap.
  rewrite (statsMap_own_absent stats emptyObject k Habs). simpl.
  assert (E : inherited k = VBuiltin k).
  { unfold inherited.
    assert (Hex : existsb (String.eqb k) objectPrototypeMethods = true).
    { apply existsb_exists. exists k. split; [exact Hk|].
      apply String.eqb_refl. }
    rewrite Hex. reflexivity. }
  assert (N : forall s, In s ["key"; "label"; "total"; "complaints";
                               "__proto__"] -> String.eqb k s = false).
  { intros s Hs. apply String.eqb_neq. intros ->.
    simpl in Hk, Hs. repeat (destruct Hk as [Hk|Hk]; [subst|]);
      try contradiction;
      repeat (destruct Hs as [Hs|Hs]; [discriminate|]); contradiction. }
  destruct (proto _) as [p|].
  - rewrite (N "__proto__") by (simpl; tauto). unfold stats_get.
    rewrite (N "key"), (N "label"), (N "total"), (N "complaints"),
      (N "__proto__") by (simpl; tauto).
    exact E.
  - rewrite (N "__proto__") by (simpl; tauto). exact E.
Qed.

(** A key that is neither in the table nor a name every object answers to
    selects nothing, as long as no region is filed under "__proto__". *)
Lemma selected_stale_null (stats : list RegionStats) (k : string) :
  (forall b, In b stats -> key b <> k) ->
  (forall b, In b stats -> key b <> "__proto__") ->
  k <> "__proto__" -> ~ In k objectPrototypeMethods ->
  selected (Some k) (statsMap stats) = VNull /\
  detailsModal (selected (Some k) (statsMap stats)) = None.
Proof.
  intros Habs Hnp Hk Hnot.
  assert (E : selected (Some k) (statsMap stats) = VNull).
  { unfold selected. destruct (truthy k); [|reflexivity].
    unfold obj_get, statsMap.
    rewrite (statsMap_own_absent stats emptyObject k Habs),
      (statsMap_proto_absent stats emptyObject Hnp). simpl.
    apply String.eqb_neq in Hk. rewrite Hk. unfold inherited.
    destruct (existsb (String.eqb k) objectPrototypeMethods) eqn:Hex.
    - exfalso. apply Hnot. apply existsb_exists in Hex.
      destruct Hex as [s [Hs Heq]]. apply String.eqb_eq in Heq.
      subst s. exact Hs.
    - reflexivity. }
  rewrite E. split; reflexivity.
Qed.

(** On an output of the aggregator: with one record and one feature of the
    region "Sadar" the table holds the key "sadar" alone; under the key
    "constructor", which the table does not hold, [selected] is the
    function [statsMap] inherits under that name, not [null], and the
    modal is rendered, with every property [undefined]. *)
Theorem stale_selection_constructor :
  exists out,
    statsByBlock (collator := codeUnitCompare)
                 [recordOf "Sadar"] (collectionOf [featureOf "Sadar"])
    = Some out /\
    map key out = ["sadar"] /\
    selected (Some "constructor") (statsMap out) = VBuiltin "constructor" /\
    detailsModal (selected (Some "constructor") (statsMap out))
    = Some {| modal_block := VUndefined; modal_total := VUndefined;
              modal_complaints := VUndefined |}.
Proof.
  eexists. split; [vm_compute; reflexivity|].
  split; [reflexivity|]. split; reflexivity.
Qed.

(** * Further properties *)

(** ** The normalizer *)

Lemma isWhiteSpace_lowerCodeUnit (c : ascii) :
  isWhiteSpace (lowerCodeUnit c) = isWhiteSpace c.
Proof. destruct c as [[] [] [] [] [] [] [] []]; reflexivity. Qed.

Lemma lowerCodeUnit_idempotent (c : ascii) :
  lowerCodeUnit (lowerCodeUnit c) = lowerCodeUnit c.
Proof. destruct c as [[] [] [] [] [] [] [] []]; reflexivity. Qed.

Lemma truthy_toLowerCase (s : string) : truthy (toLowerCase s) = truthy s.
Proof. destruct s; reflexivity. Qed.

Lemma toLowerCase_idempotent (s : string) :
  toLowerCase (toLowerCase s) = toLowerCase s.
Proof.
  induction s as [|c s IH]; simpl; [reflexivity|].
  rewrite lowerCodeUnit_idempotent, IH. reflexivity.
Qed.

Lemma toLowerCase_trimStart (s : string) :
  toLowerCase (trimStart s) = trimStart (toLowerCase s).
Proof.
  induction s as [|c s IH]; simpl; [reflexivity|].
  rewrite isWhiteSpace_lowerCodeUnit.
  destruct (isWhiteSpace c); [exact IH|reflexivity].
Qed.

Lemma toLowerCase_trimEnd (s : string) :
  toLowerCase (trimEnd s) = trimEnd (toLowerCase s).
Proof.
  induction s as [|c s IH]; simpl; [reflexivity|].
  rewrite isWhiteSpace_lowerCodeUnit, <- IH, truthy_toLowerCase.
  destruct (isWhiteSpace c && negb (truthy (trimEnd s))); reflexivity.
Qed.

Lemma toLowerCase_trim (s : string) :
  toLowerCase (trim s) = trim (toLowerCase s).
Proof.
  unfold trim. rewrite toLowerCase_trimEnd, toLowerCase_trimStart.
  reflexivity.
Qed.

Lemma trimEnd_idempotent (s : string) : trimEnd (trimEnd s) = trimEnd s.
Proof.
  induction s as [|c s IH]; simpl; [reflexivity|].
  destruct (isWhiteSpace c && negb (truthy (trimEnd s))) eqn:E; simpl.
  - reflexivity.
  - rewrite IH, E. reflexivity.
Qed.

Lemma trimStart_startsBlack (s : string) : startsBlack (trimStart s).
Proof.
  induction s as [|c s IH]; simpl; [exact I|].
  destruct (isWhiteSpace c) eqn:E; [exact IH|exact E].
Qed.

Lemma trimStart_fixed (s : string) : startsBlack s -> trimStart s = s.
Proof. destruct s as [|c s]; simpl; [reflexivity|]. intros ->. reflexivity. Qed.

Lemma trimEnd_startsBlack (s : string) :
  startsBlack s -> startsBlack (trimEnd s).
Proof.
  destruct s as [|c s]; simpl; [tauto|]. intros H. rewrite H. exact H.
Qed.

Lemma trim_idempotent (s : string) : trim (trim s) = trim s.
Proof.
  unfold trim.
  rewrite (trimStart_fixed (trimEnd (trimStart s))).
  - apply trimEnd_idempotent.
  - apply trimEnd_startsBlack, trimStart_startsBlack.
Qed.

Lemma normalizeBlockName_Some (s : string) :
  normalizeBlockName (Some s) = toLowerCase (trim s).
Proof. destruct s; reflexivity. Qed.

(** X1: a key is in canonical form: normalizing it again, trimming it or
    lower-casing it gives the key back. *)
Theorem normalizeBlockName_canonical (name : option string) :
  normalizeBlockName (Some (normalizeBlockName name))
  = normalizeBlockName name /\
  trim (normalizeBlockName name) = normalizeBlockName name /\
  toLowerCase (normalizeBlockName name) = normalizeBlockName name.
Proof.
  assert (T : trim (normalizeBlockName name) = normalizeBlockName name).
  { unfold normalizeBlockName.
    rewrite toLowerCase_trim, trim_idempotent. reflexivity. }
  assert (L : toLowerCase (normalizeBlockName name) = normalizeBlockName name).
  { unfold normalizeBlockName. apply toLowerCase_idempotent. }
  split; [|split; assumption].
  rewrite normalizeBlockName_Some, T. exact L.
Qed.

Lemma trimStart_white (s : string) :
  allWhiteSpace s = true -> trimStart s = "".
Proof.
  induction s as [|c s IH]; simpl; [reflexivity|].
  intros H. apply andb_prop in H. destruct H as [-> H]. apply IH, H.
Qed.

Lemma trimEnd_white (s : string) :
  allWhiteSpace s = true -> trimEnd s = "".
Proof.
  induction s as [|c s IH]; simpl; [reflexivity|].
  intros H. apply andb_prop in H. destruct H as [-> H].
  rewrite (IH H). reflexivity.
Qed.

Lemma trimStart_app_white (pre s : string) :
  allWhiteSpace pre = true -> trimStart (pre ++ s) = trimStart s.
Proof.
  induction pre as [|c pre IH]; simpl; [reflexivity|].
  intros H. apply andb_prop in H. destruct H as [-> H]. apply IH, H.
Qed.

Lemma trimEnd_app_white (s post : string) :
  allWhiteSpace post = true -> trimEnd (s ++ post) = trimEnd s.
Proof.
  intros H. induction s as [|c s IH]; simpl.
  - apply trimEnd_white, H.
  - rewrite IH. reflexivity.
Qed.

Lemma trim_app_white (pre s post : string) :
  allWhiteSpace pre = true -> allWhiteSpace post = true ->
  trim (pre ++ s ++ post) = trim s.
Proof.
  intros Hpre Hpost. unfold trim. rewrite (trimStart_app_white _ _ Hpre).
  induction s as [|c s IH]; simpl.
  - rewrite (trimStart_white _ Hpost). reflexivity.
  - destruct (isWhiteSpace c) eqn:E; [exact IH|].
    change (String c (s ++ post)) with (String c s ++ post)%string.
    apply trimEnd_app_white, Hpost.
Qed.

(** X2: white space around a name and the case of its letters do not
    change its key. *)
Theorem normalizeBlockName_insensitive (pre s post t : string) :
  allWhiteSpace pre = true -> allWhiteSpace post = true ->
  toLowerCase s = toLowerCase t ->
  normalizeBlockName (Some (pre ++ s ++ post)%string)
  = normalizeBlockName (Some t).
Proof.
  intros Hpre Hpost Hst.
  rewrite !normalizeBlockName_Some, (trim_app_white _ _ _ Hpre Hpost).
  rewrite !toLowerCase_trim, Hst. reflexivity.
Qed.

Lemma normalizeBlockName_insensitive_witness :
  normalizeBlockName (Some (" " ++ "Foo" ++ " ")%string)
  = normalizeBlockName (Some "foo").
Proof.
  apply (normalizeBlockName_insensitive " " "Foo" " " "foo"); reflexivity.
Defined.

(** ** The classifier *)

(** X3: the classifier is monotone: a greater count never gets a lower
    tier, and a negative count is [Low]. *)
Theorem getSeverity_monotone (n m : Z) :
  n <= m ->
  severityRank (getSeverity n) <= severityRank (getSeverity m) /\
  (n < 0 -> getSeverity n = Low).
Proof.
  intros H. unfold getSeverity, thresholds; simpl.
  destruct (Z.leb_spec n 3), (Z.leb_spec n 5), (Z.leb_spec m 3),
    (Z.leb_spec m 5); simpl; split; intros; try reflexivity; lia.
Qed.

Lemma getSeverity_monotone_witness :
  severityRank (getSeverity 2) <= severityRank (getSeverity 7) /\
  (2 < 0 -> getSeverity 2 = Low).
Proof. apply (getSeverity_monotone 2 7). lia. Defined.

(** ** Where the keys of the table come from *)

Lemma In_keys_set (k k' : string) (v : RegionStats) (m : JSMap) :
  In k' (keys (map_set k v m)) <-> k' = k \/ In k' (keys m).
Proof.
  rewrite keys_map_set. destruct (map_has k m) eqn:Hhas.
  - split; [tauto|]. intros [->|H]; [|exact H].
    apply map_has_true in Hhas. destruct Hhas as [e He].
    destruct (in_dec string_dec k (keys m)) as [HI|HI]; [exact HI|].
    apply map_get_keys in HI. congruence.
  - rewrite in_app_iff. simpl. split.
    + intros [H|[H|[]]]; [right; exact H|left; symmetry; exact H].
    + intros [->|H]; [right; left; reflexivity|left; exact H].
Qed.

Lemma pass1_step_keys (m m' : JSMap) (c : Complaint) :
  pass1_step m c = Some m' ->
  forall k, In k (keys m') <->
            In k (keys m) \/ (truthy k = true /\ keyOf c = k).
Proof.
  intros E k. destruct (truthy (keyOf c)) eqn:Hk.
  - rewrite (pass1_step_keyed m c Hk) in E. injection E as <-.
    rewrite In_keys_set. split.
    + intros [->|H]; [right; split; [exact Hk|reflexivity]|left; exact H].
    + intros [H|[_ H]]; [right; exact H|left; symmetry; exact H].
  - rewrite (pass1_step_skip m c Hk) in E. injection E as <-.
    split; [tauto|]. intros [H|[H1 H2]]; [exact H|]. congruence.
Qed.

Lemma pass1_keys (cs : list Complaint) (m m' : JSMap) :
  foldM pass1_step cs m = Some m' ->
  forall k, In k (keys m') <->
            In k (keys m) \/
            (truthy k = true /\ exists c, In c cs /\ keyOf c = k).
Proof.
  revert m. induction cs as [|c cs IH]; intros m; simpl.
  - intros [= <-] k. split; [tauto|]. intros [H|[_ [c [[] _]]]]. exact H.
  - destruct (pass1_step m c) as [m1|] eqn:E1; simpl; [|discriminate].
    intros E k. rewrite (IH m1 E k), (pass1_step_keys m m1 c E1 k). split.
    + intros [[H|[Hk Hc]]|[Hk [c' [HI Hc]]]].
      * left. exact H.
      * right. split; [exact Hk|]. exists c. split; [left; reflexivity|exact Hc].
      * right. split; [exact Hk|]. exists c'. split; [right; exact HI|exact Hc].
    + intros [H|[Hk [c' [[->|HI] Hc]]]].
      * left. left. exact H.
      * left. right. split; assumption.
      * right. split; [exact Hk|]. exists c'. split; assumption.
Qed.

Lemma pass2_step_keys (m m' : JSMap) (f : Feature) :
  pass2_step m f = Some m' ->
  forall k, In k (keys m') <->
            In k (keys m) \/ (truthy k = true /\ featureKey f = k).
Proof.
  intros E k. destruct (truthy (featureKey f)) eqn:Hk.
  - assert (Em : exists v, m' = map_set (featureKey f) v m).
    { destruct (map_get (featureKey f) m) as [e|] eqn:Hget.
      - destruct (pass2_step_bound m f e Hk Hget) as [r [_ [_ E']]].
        rewrite E in E'. injection E' as ->. eexists; reflexivity.
      - destruct (pass2_step_new m f Hk Hget) as [r [_ [_ [_ E']]]].
        rewrite E in E'. injection E' as ->. eexists; reflexivity. }
    destruct Em as [v ->]. rewrite In_keys_set. split.
    + intros [->|H]; [right; split; [exact Hk|reflexivity]|left; exact H].
    + intros [H|[_ H]]; [right; exact H|left; symmetry; exact H].
  - rewrite (pass2_step_skip m f Hk) in E. injection E as <-.
    split; [tauto|]. intros [H|[H1 H2]]; [exact H|]. congruence.
Qed.

Lemma pass2_keys (fs : list Feature) (m m' : JSMap) :
  foldM pass2_step fs m = Some m' ->
  forall k, In k (keys m') <->
            In k (keys m) \/
            (truthy k = true /\ exists f, In f fs /\ featureKey f = k).
Proof.
  revert m. induction fs as [|f fs IH]; intros m; simpl.
  - intros [= <-] k. split; [tauto|]. intros [H|[_ [c [[] _]]]]. exact H.
  - destruct (pass2_step m f) as [m1|] eqn:E1; simpl; [|discriminate].
    intros E k. rewrite (IH m1 E k), (pass2_step_keys m m1 f E1 k). split.
    + intros [[H|[Hk Hc]]|[Hk [c' [HI Hc]]]].
      * left. exact H.
      * right. split; [exact Hk|]. exists f. split; [left; reflexivity|exact Hc].
      * right. split; [exact Hk|]. exists c'. split; [right; exact HI|exact Hc].
    + intros [H|[Hk [c' [[->|HI] Hc]]]].
      * left. left. exact H.
      * left. right. split; assumption.
      * right. split; [exact Hk|]. exists c'. split; assumption.
Qed.

Lemma table_keys (records : list Complaint) (m : JSMap) :
  table_ok records m -> map key (map_values m) = keys m.
Proof.
  intros Hok.
  assert (H : forall k e, In (k, e) m -> key e = k).
  { intros k e HI. apply (In_map_get _ _ _ (ok_nodup Hok)) in HI.
    apply (ok_entry Hok k e HI). }
  clear Hok. unfold map_values, keys.
  induction m as [|[k e] m IH]; simpl; [reflexivity|].
  rewrite (H k e (or_introl eq_refl)). f_equal.
  apply IH. intros k' e' HI. apply H. right. exact HI.
Qed.

(** The map behind the output holds the non-empty keys of the records and
    of the features, and nothing else. *)
Lemma statsByBlock_table_keys {collator : Collator}
      (records : list Complaint)
      (blocksGeoJson : option FeatureCollection) :
  exists m out,
    statsByBlock records blocksGeoJson = Some out /\
    table_ok records m /\
    Permutation (map_values m) out /\
    Permutation (keys m) (map key out) /\
    forall k,
      In k (keys m) <->
      k <> "" /\
      ((exists c, In c records /\ keyOf c = k) \/
       (exists f, In f (featuresOf blocksGeoJson) /\ featureKey f = k)).
Proof.
  destruct (statsByBlock_returns records blocksGeoJson)
    as [m1 [m [out [E1 [_ [E2 [Hok [_ [Hs [_ Hperm]]]]]]]]]].
  exists m, out. split; [exact Hs|]. split; [exact Hok|].
  split; [exact Hperm|]. split.
  { rewrite <- (table_keys records m Hok). apply Permutation_map, Hperm. }
  intros k. split.
  - intros HI. apply (pass2_keys _ _ _ E2) in HI.
    destruct HI as [HI|[Ht Hf]].
    + apply (pass1_keys _ _ _ E1) in HI.
      destruct HI as [[]|[Ht Hc]].
      split; [apply truthy_true_iff, Ht|left; exact Hc].
    + split; [apply truthy_true_iff, Ht|right; exact Hf].
  - intros [Hne H]. apply truthy_true_iff in Hne.
    apply (pass2_keys _ _ _ E2).
    destruct H as [Hc|Hf].
    + left. apply (pass1_keys _ _ _ E1). right. split; assumption.
    + right. split; assumption.
Qed.

(** ** The entries of the output *)

(** X4: the output has no two entries with the same key, and its keys are
    exactly the non-empty keys of the records and of the features. *)
Theorem output_keys {collator : Collator} (records : list Complaint)
        (blocksGeoJson : option FeatureCollection) :
  exists out,
    statsByBlock records blocksGeoJson = Some out /\
    NoDup (map key out) /\
    forall k,
      In k (map key out) <->
      k <> "" /\
      ((exists c, In c records /\ keyOf c = k) \/
       (exists f, In f (featuresOf blocksGeoJson) /\ featureKey f = k)).
Proof.
  destruct (statsByBlock_table_keys records blocksGeoJson)
    as [m [out [Hs [Hok [_ [Hk Hin]]]]]].
  exists out. split; [exact Hs|]. split.
  - apply (Permutation_NoDup Hk), (ok_nodup Hok).
  - intros k. rewrite <- Hin. split; apply Permutation_in.
    + apply Permutation_sym, Hk.
    + exact Hk.
Qed.

(** X5: every entry lists the records of its key, all of them and in input
    order, and its total is their number. *)
Theorem entry_lists_its_records {collator : Collator}
        (records : list Complaint)
        (blocksGeoJson : option FeatureCollection) :
  exists out,
    statsByBlock records blocksGeoJson = Some out /\
    forall e, In e out ->
              complaints e = recordsOf (key e) records /\
              total e = Z.of_nat (List.length (complaints e)).
Proof.
  destruct (statsByBlock_returns records blocksGeoJson)
    as [m1 [m [out [_ [_ [_ [Hok [_ [Hs [_ Hperm]]]]]]]]]].
  exists out. split; [exact Hs|]. intros e He.
  apply (Permutation_in _ (Permutation_sym Hperm)) in He.
  destruct (table_entry records m e Hok He) as [_ [_ [_ [_ H]]]].
  exact H.
Qed.

Lemma inputKeys_spec (records : list Complaint) (fs : list Feature)
      (k : string) :
  In k (inputKeys records fs) <->
  k <> "" /\
  ((exists c, In c records /\ keyOf c = k) \/
   (exists f, In f fs /\ featureKey f = k)).
Proof.
  unfold inputKeys. rewrite nodup_In, filter_In, in_app_iff, !in_map_iff.
  rewrite truthy_true_iff. split.
  - intros [[[c [Hc HI]]|[f [Hf HI]]] Hk]; (split; [exact Hk|]).
    + left. exists c. split; assumption.
    + right. exists f. split; assumption.
  - intros [Hk [[c [HI Hc]]|[f [HI Hf]]]]; (split; [|exact Hk]).
    + left. exists c. split; assumption.
    + right. exists f. split; assumption.
Qed.

(** X6: the number of blocks the side bar shows is the number of distinct
    non-empty keys of the two datasets. *)
Theorem totalBlocks_counts_keys {collator : Collator}
        (records : list Complaint)
        (blocksGeoJson : option FeatureCollection) :
  exists out,
    statsByBlock records blocksGeoJson = Some out /\
    totalBlocks out
    = Z.of_nat (List.length
                  (inputKeys records (featuresOf blocksGeoJson))).
Proof.
  destruct (statsByBlock_table_keys records blocksGeoJson)
    as [m [out [Hs [Hok [Hperm [_ Hin]]]]]].
  exists out. split; [exact Hs|]. unfold totalBlocks. f_equal.
  rewrite <- (Permutation_length Hperm).
  unfold map_values. rewrite length_map.
  rewrite <- (length_map fst m). fold (keys m).
  apply Permutation_length, NoDup_Permutation.
  - apply (ok_nodup Hok).
  - apply NoDup_nodup.
  - intros k. rewrite Hin, inputKeys_spec. tauto.
Qed.

(** X7: the total the side bar shows counts every record, named or not: it
    is the sum of the totals of the entries plus the number of records
    whose key is empty. *)
Theorem totalComplaints_splits {collator : Collator}
        (records : list Complaint)
        (blocksGeoJson : option FeatureCollection) :
  exists out,
    statsByBlock records blocksGeoJson = Some out /\
    totalComplaints records
    = sumTotals out
      + Z.of_nat (List.length
                    (filter (fun c => negb (truthy (keyOf c))) records)).
Proof.
  destruct (statsByBlock_returns records blocksGeoJson)
    as [m1 [m [out [_ [_ [_ [Hok [_ [Hs [_ Hperm]]]]]]]]]].
  exists out. split; [exact Hs|].
  rewrite <- (sumTotals_Permutation _ _ Hperm), (ok_sum Hok).
  unfold totalComplaints, keyedCount. rewrite <- Nat2Z.inj_add. f_equal.
  clear. induction records as [|c cs IH]; simpl; [reflexivity|].
  destruct (truthy (keyOf c)); simpl; lia.
Qed.

(** ** Where the label of an entry comes from *)

Lemma lastFeature_None (k : string) (fs : list Feature) :
  lastFeature k fs = None -> forall f, In f fs -> featureKey f <> k.
Proof.
  induction fs as [|f fs IH]; simpl; [tauto|].
  destruct (lastFeature k fs) as [g|]; [discriminate|].
  destruct (String.eqb_spec (featureKey f) k) as [_|Hne]; [discriminate|].
  intros _ f' [<-|HI]; [exact Hne|]. apply IH; [reflexivity|exact HI].
Qed.

Lemma lastFeature_Some (k : string) (fs : list Feature) (g : Feature) :
  lastFeature k fs = Some g ->
  exists fs1 fs2,
    fs = fs1 ++ g :: fs2 /\ featureKey g = k /\
    forall f, In f fs2 -> featureKey f <> k.
Proof.
  induction fs as [|f fs IH]; simpl; [discriminate|].
  destruct (lastFeature k fs) as [g'|] eqn:E.
  - intros [= ->]. destruct (IH eq_refl) as [fs1 [fs2 [-> [Hg Hl]]]].
    exists (f :: fs1), fs2. split; [reflexivity|]. split; assumption.
  - destruct (String.eqb_spec (featureKey f) k) as [Hk|_]; [|discriminate].
    intros [= <-]. exists [], fs. split; [reflexivity|].
    split; [exact Hk|]. apply lastFeature_None, E.
Qed.

Lemma pass1_label (cs records : list Complaint) (m m' : JSMap)
      (k : string) (e' : RegionStats) :
  table_ok records m ->
  foldM pass1_step cs m = Some m' -> map_get k m' = Some e' ->
  match map_get k m with
  | Some e => label e' = label e
  | None => exists c, firstRecord k cs = Some c /\ label e' = block c
  end.
Proof.
  intros Hok E Hget.
  assert (Hk : truthy k = true).
  { destruct (pass1_ok cs records m Hok) as [m'' [E'' Hok'']].
    rewrite E in E''. injection E'' as <-.
    apply (ok_entry Hok'' k e' Hget). }
  revert records m Hok E. induction cs as [|c cs IH]; intros records m Hok.
  - simpl. intros [= <-]. rewrite Hget. reflexivity.
  - simpl. destruct (pass1_step_ok records m c Hok) as [m1 [E1 Hok1]].
    rewrite E1. simpl. intros E. specialize (IH _ _ Hok1 E).
    unfold firstRecord. simpl.
    destruct (String.eqb_spec (keyOf c) k) as [Hc|Hne].
    + assert (Hkc : truthy (keyOf c) = true) by (rewrite Hc; exact Hk).
      rewrite (pass1_step_keyed m c Hkc) in E1. injection E1 as <-.
      rewrite Hc, map_get_set_eq in IH. rewrite Hc in *.
      destruct (map_get k m) as [e|]; simpl in IH.
      * exact IH.
      * exists c. split; [reflexivity|exact IH].
    + assert (Hsame : map_get k m1 = map_get k m).
      { destruct (truthy (keyOf c)) eqn:Hkc.
        - rewrite (pass1_step_keyed m c Hkc) in E1. injection E1 as <-.
          apply map_get_set_ne, Hne.
        - rewrite (pass1_step_skip m c Hkc) in E1. injection E1 as <-.
          reflexivity. }
      rewrite Hsame in IH. exact IH.
Qed.

Lemma pass2_label (records : list Complaint) (fs : list Feature)
      (m m' : JSMap) (k : string) (e' : RegionStats) :
  table_ok records m ->
  foldM pass2_step fs m = Some m' -> map_get k m' = Some e' ->
  match lastFeature k fs with
  | Some g => label e' = rawNameOf g
  | None => map_get k m = Some e'
  end.
Proof.
  intros Hok E Hget. destruct (lastFeature k fs) as [g|] eqn:Hlast.
  - destruct (lastFeature_Some k fs g Hlast) as [fs1 [fs2 [-> [Hg Hl]]]].
    rewrite foldM_app in E.
    destruct (pass2_ok records fs1 m Hok) as [ma [Ea [Hoka _]]].
    rewrite Ea in E. simpl in E.
    destruct (pass2_step_ok records ma g Hoka) as [mb [Eb [Hokb _]]].
    rewrite Eb in E. simpl in E.
    destruct (pass2_ok records fs2 mb Hokb) as [mc [Ec [_ [_ [_ Hkeep]]]]].
    rewrite E in Ec. injection Ec as <-.
    rewrite (Hkeep k Hl) in Hget.
    assert (Hk : truthy (featureKey g) = true).
    { rewrite Hg. apply (ok_entry Hokb k e' Hget). }
    destruct (map_get (featureKey g) ma) as [e|] eqn:Hga.
    + destruct (pass2_step_bound ma g e Hk Hga) as [r [Hr [_ E']]].
      rewrite Eb in E'. injection E' as ->.
      rewrite <- Hg, map_get_set_eq in Hget. injection Hget as <-.
      simpl. symmetry. exact Hr.
    + destruct (pass2_step_new ma g Hk Hga) as [r [Hr [_ [_ E']]]].
      rewrite Eb in E'. injection E' as ->.
      rewrite <- Hg, map_get_set_eq in Hget. injection Hget as <-.
      simpl. symmetry. exact Hr.
  - destruct (pass2_ok records fs m Hok) as [mc [Ec [_ [_ [_ Hkeep]]]]].
    rewrite E in Ec. injection Ec as <-.
    rewrite <- (Hkeep k (lastFeature_None k fs Hlast)). exact Hget.
Qed.

(** X8: the label of an entry is the raw name of the last feature with
    the entry's key; without such a feature it is the block name of the
    first record with that key. *)
Theorem label_precedence {collator : Collator} (records : list Complaint)
        (blocksGeoJson : option FeatureCollection) :
  exists out,
    statsByBlock records blocksGeoJson = Some out /\
    forall e, In e out ->
      match lastFeature (key e) (featuresOf blocksGeoJson) with
      | Some g => label e = rawNameOf g
      | None => exists c, firstRecord (key e) records = Some c /\
                          label e = block c
      end.
Proof.
  destruct (statsByBlock_returns records blocksGeoJson)
    as [m1 [m [out [E1 [Hok1 [E2 [Hok [_ [Hs [_ Hperm]]]]]]]]]].
  exists out. split; [exact Hs|]. intros e He.
  apply (Permutation_in _ (Permutation_sym Hperm)) in He.
  destruct (table_entry records m e Hok He) as [Hget _].
  pose proof (pass2_label records _ m1 m (key e) e Hok1 E2 Hget) as H2.
  destruct (lastFeature (key e) (featuresOf blocksGeoJson)) as [g|].
  - exact H2.
  - apply (pass1_label records [] [] m1 (key e) e table_ok_empty E1 H2).
Qed.

(** ** The ranking *)

Section SortRanking.
Context {A : Type}.
Variable cmp : A -> A -> option Z.
Variable rank : A -> A -> Prop.
Hypothesis cmp_keeps : forall x y z, cmp x y = Some z -> z <= 0 -> rank x y.
Hypothesis cmp_swaps : forall x y z, cmp x y = Some z -> 0 < z -> rank y x.

Lemma sort_insert_ranked (x : A) (l out : list A) :
  Sorted rank l -> sort_insert cmp x l = Some out -> Sorted rank out.
Proof.
  intros Hs. revert out. induction Hs as [|y l Hs IH Hhd]; intros out; simpl.
  - intros [= <-]. repeat constructor.
  - destruct (cmp x y) as [c|] eqn:Hc; simpl; [|discriminate].
    destruct (Z.leb_spec c 0) as [Hle|Hgt].
    + intros [= <-]. constructor.
      * constructor; assumption.
      * constructor. apply (cmp_keeps x y c Hc Hle).
    + destruct (sort_insert cmp x l) as [l'|] eqn:Hins; simpl;
        [|discriminate].
      intros [= <-]. constructor; [apply IH; reflexivity|].
      pose proof (cmp_swaps x y c Hc Hgt) as Hyx.
      destruct l as [|y' l]; simpl in Hins.
      * injection Hins as <-. constructor. exact Hyx.
      * destruct (cmp x y') as [c'|]; simpl in Hins; [|discriminate].
        destruct (c' <=? 0).
        -- injection Hins as <-. constructor. exact Hyx.
        -- destruct (sort_insert cmp x l); simpl in Hins; [|discriminate].
           injection Hins as <-. constructor. inversion Hhd; assumption.
Qed.

Lemma sort_ranked (l out : list A) :
  sort cmp l = Some out -> Sorted rank out.
Proof.
  revert out. induction l as [|x l IH]; intros out; simpl.
  - intros [= <-]. constructor.
  - destruct (sort cmp l) as [l'|]; simpl; [|discriminate].
    apply sort_insert_ranked, IH. reflexivity.
Qed.
End SortRanking.

Lemma StronglySorted_later {A : Type} (R : A -> A -> Prop)
      (pre mid post : list A) (a b : A) :
  StronglySorted R (pre ++ a :: mid ++ b :: post) -> R a b.
Proof.
  induction pre as [|x pre IH]; simpl; intros Hs.
  - inversion Hs as [|? ? _ Hall]; subst.
    rewrite Forall_forall in Hall. apply Hall.
    apply in_or_app. right. left. reflexivity.
  - inversion Hs; subst. apply IH. assumption.
Qed.

(** X9: whatever [localeCompare] answers, the totals never increase down
    the output: an entry has at least the total of every entry after it. *)
Theorem totals_never_increase {collator : Collator}
        (records : list Complaint)
        (blocksGeoJson : option FeatureCollection) :
  exists out,
    statsByBlock records blocksGeoJson = Some out /\
    forall pre a mid b post,
      out = pre ++ a :: mid ++ b :: post -> total b <= total a.
Proof.
  destruct (statsByBlock_returns records blocksGeoJson)
    as [m1 [m [out [_ [_ [_ [_ [_ [Hs [Hsort _]]]]]]]]]].
  exists out. split; [exact Hs|]. intros pre a mid b post Hout.
  assert (Hsorted : Sorted (fun x y => total y <= total x) out).
  { apply (sort_ranked compareStats (fun x y => total y <= total x))
      with (l := map_values m); [| |exact Hsort].
    - intros x y z Hz Hle. unfold compareStats in Hz.
      destruct (Z.eqb_spec (total y - total x) 0) as [E|Hne];
        simpl in Hz; [lia|]. injection Hz as <-. lia.
    - intros x y z Hz Hgt. unfold compareStats in Hz.
      destruct (Z.eqb_spec (total y - total x) 0) as [E|Hne];
        simpl in Hz; [lia|]. injection Hz as <-. lia. }
  apply Sorted_StronglySorted in Hsorted.
  - rewrite Hout in Hsorted.
    apply (StronglySorted_later _ _ _ _ _ _ Hsorted).
  - intros x y z Hxy Hyz. lia.
Qed.

(** ** Looking an entry up *)

Lemma normalizeBlockName_or_else (name : option string) :
  normalizeBlockName (Some (or_else name "")) = normalizeBlockName name.
Proof. unfold normalizeBlockName. rewrite or_else_empty. reflexivity. Qed.

Lemma statsMap_own_no_proto (stats : list RegionStats) (o : PlainObject) :
  map_get "__proto__" (own o) = None ->
  map_get "__proto__"
          (own (fold_left (fun m b => obj_set (key b) b m) stats o)) = None.
Proof.
  revert o. induction stats as [|b stats IH]; intros o H; simpl.
  - exact H.
  - apply IH. unfold obj_set.
    destruct (String.eqb_spec (key b) "__proto__") as [E|Hne]; simpl.
    + exact H.
    + rewrite (map_get_set_ne _ _ _ _ Hne). exact H.
Qed.

Lemma statsMap_lookup_last (rest : list RegionStats) (o : PlainObject)
      (b : RegionStats) :
  (forall b', In b' rest -> key b' <> key b) ->
  map_get "__proto__" (own o) = None ->
  obj_get (key b)
          (fold_left (fun m b => obj_set (key b) b m) rest
                     (obj_set (key b) b o))
  = VStats b.
Proof.
  intros Hrest Hown. unfold obj_get.
  rewrite (statsMap_own_absent rest _ (key b) Hrest).
  unfold obj_set at 1.
  destruct (String.eqb_spec (key b) "__proto__") as [E|Hne]; simpl.
  - rewrite E, Hown. rewrite statsMap_proto_absent.
    + reflexivity.
    + intros b' HI. rewrite <- E. apply Hrest, HI.
  - rewrite map_get_set_eq. reflexivity.
Qed.

Lemma statsMap_lookup (stats : list RegionStats) (b : RegionStats) :
  NoDup (map key stats) -> In b stats ->
  obj_get (key b) (statsMap stats) = VStats b.
Proof.
  unfold statsMap.
  assert (G : forall o, map_get "__proto__" (own o) = None ->
                        NoDup (map key stats) -> In b stats ->
                        obj_get (key b)
                          (fold_left (fun m b => obj_set (key b) b m)
                                     stats o) = VStats b).
  { induction stats as [|b0 stats IH]; intros o Hown Hnd HI; simpl.
    - destruct HI.
    - inversion Hnd as [|? ? Hnot Hnd']; subst.
      destruct (in_dec string_dec (key b) (map key stats)) as [Hin|Hout].
      + destruct HI as [->|HI]; [contradiction|].
        apply IH; [|exact Hnd'|exact HI].
        unfold obj_set.
        destruct (String.eqb_spec (key b0) "__proto__") as [E|Hne]; simpl.
        * exact Hown.
        * rewrite (map_get_set_ne _ _ _ _ Hne). exact Hown.
      + destruct HI as [->|HI].
        * apply statsMap_lookup_last; [|exact Hown].
          intros b' Hb' E. apply Hout. rewrite <- E. apply in_map, Hb'.
        * exfalso. apply Hout, in_map, HI. }
  apply G. reflexivity.
Qed.

Lemma statsMap_lookup_empty (stats : list RegionStats) :
  (forall b, In b stats -> key b <> "") ->
  obj_get "" (statsMap stats) = VUndefined.
Proof.
  intros H. unfold obj_get, statsMap.
  rewrite (statsMap_own_absent stats emptyObject "" H). simpl.
  destruct (proto _); reflexivity.
Qed.

(** What the lookup object built from the output answers: each entry under
    its own key, each feature with a non-empty key has its entry, and
    nothing is filed under the empty key. *)
Lemma statsMap_view {collator : Collator} (records : list Complaint)
      (blocksGeoJson : option FeatureCollection) :
  exists out,
    statsByBlock records blocksGeoJson = Some out /\
    (forall b, In b out ->
               obj_get (key b) (statsMap out) = VStats b /\
               entry_ok records (key b) b) /\
    (forall f, In f (featuresOf blocksGeoJson) ->
               truthy (featureKey f) = true ->
               exists e, In e out /\ key e = featureKey f) /\
    obj_get "" (statsMap out) = VUndefined.
Proof.
  destruct (statsByBlock_table_keys records blocksGeoJson)
    as [m [out [Hs [Hok [Hperm [Hk Hin]]]]]].
  assert (Hnd : NoDup (map key out))
    by apply (Permutation_NoDup Hk), (ok_nodup Hok).
  assert (Hent : forall b, In b out -> entry_ok records (key b) b).
  { intros b Hb. apply (Permutation_in _ (Permutation_sym Hperm)) in Hb.
    apply (table_entry records m b Hok Hb). }
  exists out. split; [exact Hs|]. split; [|split].
  - intros b Hb. split; [apply statsMap_lookup; assumption|apply Hent, Hb].
  - intros f Hf Hkf.
    assert (HI : In (featureKey f) (map key out)).
    { apply (Permutation_in _ Hk), Hin.
      split; [apply truthy_true_iff, Hkf|]. right. exists f.
      split; [exact Hf|reflexivity]. }
    apply in_map_iff in HI. destruct HI as [e [He HI]].
    exists e. split; assumption.
  - apply statsMap_lookup_empty. intros b Hb E.
    destruct (Hent b Hb) as [_ [Ht _]]. rewrite E in Ht. discriminate.
Qed.

(** ** What a click and a polygon show *)

(** X10: a click on a pill of the side bar selects the entry of that very
    pill, whatever its key is: the modal is rendered with the entry's
    label, total and records, which are the records of the key in input
    order, and it has records to list exactly when the total is not 0. *)
Theorem pill_click_opens_entry {collator : Collator}
        (records : list Complaint)
        (blocksGeoJson : option FeatureCollection) :
  exists out,
    statsByBlock records blocksGeoJson = Some out /\
    forall b, In b out ->
      selected (onPillClick b) (statsMap out) = VStats b /\
      detailsModal (selected (onPillClick b) (statsMap out))
      = Some {| modal_block := nameValue (label b);
                modal_total := VNumber (total b);
                modal_complaints := VArray (complaints b) |} /\
      complaints b = recordsOf (key b) records /\
      hasComplaints (Some (complaints b)) = (0 <? total b).
Proof.
  destruct (statsMap_view records blocksGeoJson)
    as [out [Hs [Hlook _]]].
  exists out. split; [exact Hs|]. intros b Hb.
  destruct (Hlook b Hb) as [Hget [_ [Hk [_ [Hrec Htot]]]]].
  assert (E : selected (onPillClick b) (statsMap out) = VStats b).
  { unfold selected, onPillClick. rewrite Hk, Hget. reflexivity. }
  rewrite E. split; [reflexivity|]. split; [reflexivity|].
  split; [exact Hrec|]. unfold hasComplaints. rewrite Htot.
  destruct (complaints b); reflexivity.
Qed.

(** X11: a click on a polygon whose key is not empty selects the entry of
    that key, which lists the records of the key. *)
Theorem feature_click_opens_entry {collator : Collator}
        (records : list Complaint)
        (blocksGeoJson : option FeatureCollection) (f : Feature) :
  In f (featuresOf blocksGeoJson) -> featureKey f <> "" ->
  exists out e,
    statsByBlock records blocksGeoJson = Some out /\
    In e out /\ key e = featureKey f /\
    selected (onFeatureClick f) (statsMap out) = VStats e /\
    complaints e = recordsOf (featureKey f) records.
Proof.
  intros Hf Hne. apply truthy_true_iff in Hne.
  destruct (statsMap_view records blocksGeoJson)
    as [out [Hs [Hlook [Hcov _]]]].
  destruct (Hcov f Hf Hne) as [e [He Hkey]].
  destruct (Hlook e He) as [Hget [_ [_ [_ [Hrec _]]]]].
  exists out, e. split; [exact Hs|]. split; [exact He|].
  split; [exact Hkey|]. rewrite <- Hkey. split; [|exact Hrec].
  rewrite onFeatureClick_key. fold (featureKey f). rewrite <- Hkey.
  unfold selected. rewrite Hkey, Hne, <- Hkey, Hget. reflexivity.
Qed.

Lemma feature_click_opens_entry_witness :
  exists out e,
    statsByBlock (collator := codeUnitCompare)
                 [recordOf "Sadar"]
                 (collectionOf [featureOf "Sadar"; featureOf "Hindol"])
    = Some out /\
    In e out /\ key e = "hindol" /\
    selected (onFeatureClick (featureOf "Hindol")) (statsMap out)
    = VStats e /\
    complaints e = [].
Proof.
  refine (feature_click_opens_entry (collator := codeUnitCompare)
            [recordOf "Sadar"]
            (collectionOf [featureOf "Sadar"; featureOf "Hindol"])
            (featureOf "Hindol") _ _).
  - simpl. right. left. reflexivity.
  - discriminate.
Defined.

(** X12: a polygon of the boundary dataset is filled with the colour of
    the tier of the number of records of its key, which is the tier of the
    pill of that key; a polygon with an empty key counts as 0 records, and
    it is for those polygons, and no others, that a warning is logged. *)
Theorem polygon_style {collator : Collator} (records : list Complaint)
        (blocksGeoJson : option FeatureCollection) (f : Feature) :
  In f (featuresOf blocksGeoJson) ->
  exists out,
    statsByBlock records blocksGeoJson = Some out /\
    (featureKey f <> "" ->
     styleFeature (statsMap out) f
     = ({| color := "#0000ff"; weight := 2;
           fillColor :=
             severityColor
               (getSeverity
                  (Z.of_nat
                     (List.length (recordsOf (featureKey f) records))));
           fillOpacity := 0.6 |}, []) /\
     exists e, In e out /\ key e = featureKey f /\
               fillColor (fst (styleFeature (statsMap out) f))
               = severityColor (pillSeverity e)) /\
    (featureKey f = "" ->
     styleFeature (statsMap out) f
     = ({| color := "#0000ff"; weight := 2;
           fillColor := severityColor Low; fillOpacity := 0.6 |},
        [or_else (rawNameOf f) ""])).
Proof.
  intros Hf.
  destruct (statsMap_view records blocksGeoJson)
    as [out [Hs [Hlook [Hcov Hempty]]]].
  exists out. split; [exact Hs|]. split.
  - intros Hne. apply truthy_true_iff in Hne.
    destruct (Hcov f Hf Hne) as [e [He Hkey]].
    destruct (Hlook e He) as [Hget [_ [_ [_ [Hrec Htot]]]]].
    assert (E : styleFeature (statsMap out) f
                = ({| color := "#0000ff"; weight := 2;
                      fillColor := severityColor (getSeverity (total e));
                      fillOpacity := 0.6 |}, [])).
    { unfold styleFeature. rewrite normalizeBlockName_or_else.
      fold (featureKey f). rewrite <- Hkey, Hget. reflexivity. }
    rewrite E. split.
    + rewrite Htot, Hrec, Hkey. reflexivity.
    + exists e. split; [exact He|]. split; [exact Hkey|reflexivity].
  - intros Hk. unfold styleFeature. rewrite normalizeBlockName_or_else.
    fold (featureKey f). rewrite Hk, Hempty. reflexivity.
Qed.

Lemma polygon_style_witness :
  exists out,
    statsByBlock (collator := codeUnitCompare)
                 [recordOf "Sadar"]
                 (collectionOf [featureOf "Sadar"; featureOf "  "])
    = Some out /\
    fillColor (fst (styleFeature (statsMap out) (featureOf "Sadar")))
    = "#22c55e" /\
    snd (styleFeature (statsMap out) (featureOf "  ")) = ["  "].
Proof.
  destruct (polygon_style (collator := codeUnitCompare)
              [recordOf "Sadar"]
              (collectionOf [featureOf "Sadar"; featureOf "  "])
              (featureOf "Sadar") (or_introl eq_refl))
    as [out [Hs _]].
  exists out. split; [exact Hs|].
  vm_compute in Hs. injection Hs as <-. split; reflexivity.
Defined.

(** X13: the tooltip of a polygon of the boundary dataset with a
    non-empty key shows the label of the key's entry and the number of
    records of the key, in the singular exactly for one record; with an
    empty key it shows the raw name, or "Unknown block" when there is
    none, and 0 complaints in the plural. *)
Theorem polygon_tooltip {collator : Collator} (records : list Complaint)
        (blocksGeoJson : option FeatureCollection) (f : Feature) :
  In f (featuresOf blocksGeoJson) ->
  exists out,
    statsByBlock records blocksGeoJson = Some out /\
    (featureKey f <> "" ->
     exists e l,
       In e out /\ key e = featureKey f /\ label e = Some l /\
       featureTooltip (statsMap out) f
       = let n := Z.of_nat (List.length (recordsOf (featureKey f) records)) in
         {| tooltip_label := l; tooltip_total := n;
            tooltip_plural := if n =? 1 then "" else "s" |}) /\
    (featureKey f = "" ->
     featureTooltip (statsMap out) f
     = {| tooltip_label := or_else (rawNameOf f) "Unknown block";
          tooltip_total := 0; tooltip_plural := "s" |}).
Proof.
  intros Hf.
  destruct (statsMap_view records blocksGeoJson)
    as [out [Hs [Hlook [Hcov Hempty]]]].
  exists out. split; [exact Hs|]. split.
  - intros Hne. apply truthy_true_iff in Hne.
    destruct (Hcov f Hf Hne) as [e [He Hkey]].
    destruct (Hlook e He) as [Hget [_ [_ [[l [Hl Ht]] [Hrec Htot]]]]].
    exists e, l. split; [exact He|]. split; [exact Hkey|].
    split; [exact Hl|].
    unfold featureTooltip. rewrite normalizeBlockName_or_else.
    fold (featureKey f). rewrite <- Hkey, Hget.
    unfold labelOf, totalOf. cbn. rewrite Hl. cbn. rewrite Ht.
    rewrite Htot, Hrec. reflexivity.
  - intros Hk. unfold featureTooltip. rewrite normalizeBlockName_or_else.
    fold (featureKey f). rewrite Hk, Hempty.
    unfold labelOf, totalOf. cbn.
    destruct (rawNameOf f) as [[|c s]|]; reflexivity.
Qed.

Lemma polygon_tooltip_witness :
  exists out,
    statsByBlock (collator := codeUnitCompare)
                 [recordOf "sadar"]
                 (collectionOf [featureOf "Sadar"; featureOf "  "])
    = Some out /\
    featureTooltip (statsMap out) (featureOf "Sadar")
    = {| tooltip_label := "Sadar"; tooltip_total := 1;
         tooltip_plural := "" |} /\
    featureTooltip (statsMap out) (featureOf "  ")
    = {| tooltip_label := "  "; tooltip_total := 0;
         tooltip_plural := "s" |}.
Proof.
  destruct (polygon_tooltip (collator := codeUnitCompare)
              [recordOf "sadar"]
              (collectionOf [featureOf "Sadar"; featureOf "  "])
              (featureOf "Sadar") (or_introl eq_refl))
    as [out [Hs _]].
  exists out. split; [exact Hs|].
  vm_compute in Hs. injection Hs as <-. split; reflexivity.
Defined.

(** ** The identifier shown for a record *)

Lemma readDecimal_zero (s : string) :
  readDecimal (String "0" s) = readDecimal s.
Proof.
  unfold readDecimal. simpl.
  destruct (NilEmpty.uint_of_string s); reflexivity.
Qed.

Lemma padding_zeros (n : nat) (cur s : string) :
  cur = "" \/ cur = "0" ->
  readDecimal (padding n cur "0" ++ s) = readDecimal s /\
  String.length (padding n cur "0" ++ s) = (n + String.length s)%nat.
Proof.
  revert cur. induction n as [|n IH]; intros cur Hcur; simpl.
  - split; reflexivity.
  - destruct Hcur as [->| ->]; simpl; rewrite readDecimal_zero;
      destruct (IH "" (or_introl eq_refl)) as [H1 H2];
      rewrite H1, H2; split; reflexivity.
Qed.

Lemma readDecimal_numberToString (n : Z) :
  0 <= n -> readDecimal (numberToString n) = Some n.
Proof.
  intros Hn. unfold numberToString, readDecimal.
  destruct n as [|p|p]; [reflexivity| |lia]. simpl.
  assert (E : NilZero.string_of_uint (Pos.to_uint p)
              = NilEmpty.string_of_uint (Pos.to_uint p)).
  { pose proof (DecimalPos.Unsigned.to_uint_nonnil p) as Hnn.
    destruct (Pos.to_uint p); [contradiction|reflexivity..]. }
  rewrite E, NilEmpty.usu. simpl. unfold Z.of_uint.
  rewrite DecimalPos.Unsigned.of_to. reflexivity.
Qed.

(** X14: for a record whose id is a non-negative safe integer, the
    identifier shown is "CMP-" followed by at least three decimal digits
    that read back as the id, so records with different such ids show
    different identifiers. *)
Theorem complaintId_reads_back (c : Complaint) :
  0 <= id c <= MAX_SAFE_INTEGER ->
  (exists digits,
      complaintId c = ("CMP-" ++ digits)%string /\
      readDecimal digits = Some (id c) /\
      String.length digits
      = Nat.max 3 (String.length (numberToString (id c)))) /\
  forall c', 0 <= id c' <= MAX_SAFE_INTEGER ->
             complaintId c' = complaintId c -> id c' = id c.
Proof.
  assert (R : forall x, 0 <= id x ->
                        readDecimal (padStart 3 "0" (numberToString (id x)))
                        = Some (id x)).
  { intros x Hx. unfold padStart.
    destruct (padding_zeros (3 - String.length (numberToString (id x)))
                            "0" (numberToString (id x))
                            (or_intror eq_refl)) as [H _].
    rewrite H. apply readDecimal_numberToString, Hx. }
  intros [Hc _]. split.
  - exists (padStart 3 "0" (numberToString (id c))).
    split; [reflexivity|]. split; [apply R, Hc|].
    unfold padStart.
    destruct (padding_zeros (3 - String.length (numberToString (id c)))
                            "0" (numberToString (id c))
                            (or_intror eq_refl)) as [_ H].
    rewrite H. lia.
  - intros c' [Hc' _] E. unfold complaintId in E. simpl in E.
    injection E as E. pose proof (R c' Hc') as H'. rewrite E, (R c Hc) in H'.
    congruence.
Qed.

Lemma complaintId_reads_back_witness :
  complaintId {| id := 7; block := None; grievance := ""; lat := 0;
                 lng := 0 |} = "CMP-007".
Proof.
  destruct (complaintId_reads_back
              {| id := 7; block := None; grievance := ""; lat := 0;
                 lng := 0 |}) as [_ _];
    [unfold MAX_SAFE_INTEGER; simpl; lia|].
  reflexivity.
Defined.

(** ** A selection key that the table does not hold *)

Lemma selected_stale_null_witness :
  selected (Some "hindol") (statsMap [entryOf "Sadar" 1]) = VNull /\
  detailsModal (selected (Some "hindol") (statsMap [entryOf "Sadar" 1]))
  = None.
Proof.
  apply (selected_stale_null [entryOf "Sadar" 1] "hindol").
  - intros b [<-|[]]. discriminate.
  - intros b [<-|[]]. discriminate.
  - discriminate.
  - simpl. intros H.
    repeat (destruct H as [H|H]; [discriminate|]). exact H.
Defined.

(** ** The selection keys of the component *)




